(** * rlm_json: mapping evaluator, expression cache and document builder

    A shallow embedding of [src/modules/rlm_json/rlm_json.c].  The module
    glues four library services together (the jpath compiler and evaluator,
    the json-c tokener, the JSON encoder and the map/template framework of
    the server).  Those services are not part of the module: they are the
    fields of the record [collaborators] below, and every general theorem
    holds for all of them.  A small concrete instance, [Sample], is used to
    run the code on explicit inputs. *)

From Stdlib Require Import ZArith List Bool Lia String Ascii DecimalString
  DecimalPos DecimalN.
Import ListNotations.
Open Scope string_scope.
Open Scope list_scope.
Open Scope Z_scope.

(** ** Types of the server framework used by the module *)

(** Value types of dictionary attributes ([fr_type_t]); only the tags the
    module inspects or the examples need. *)
Inductive fr_type_t : Type :=
| FR_TYPE_NULL
| FR_TYPE_STRING
| FR_TYPE_UINT32
| FR_TYPE_UINT64.

Definition fr_type_eqb (a b : fr_type_t) : bool :=
  match a, b with
  | FR_TYPE_NULL, FR_TYPE_NULL
  | FR_TYPE_STRING, FR_TYPE_STRING
  | FR_TYPE_UINT32, FR_TYPE_UINT32
  | FR_TYPE_UINT64, FR_TYPE_UINT64 => true
  | _, _ => false
  end.

(** Modelled from the spec: the kinds of a template ([tmpl_type_t], declared
    in the template library).  The spec names static text
    ([TMPL_TYPE_UNRESOLVED]), literal data ([TMPL_TYPE_DATA]), dynamic
    templates (attribute references, expansions, programs) and kinds that
    cannot be expanded at all (regular expressions, the null template). *)
Inductive tmpl_type_t : Type :=
| TMPL_TYPE_UNRESOLVED
| TMPL_TYPE_DATA
| TMPL_TYPE_ATTR
| TMPL_TYPE_XLAT
| TMPL_TYPE_EXEC
| TMPL_TYPE_REGEX
| TMPL_TYPE_NULL.

(** A dictionary attribute: the number of its parent (0 at the root, a
    vendor or a structural attribute otherwise), its own number, its name
    and its type.  The C code compares [fr_dict_attr_t] pointers; a
    dictionary holds one object per attribute, so two pointers are equal
    exactly when they designate the same attribute, which is equality of
    the whole record: attributes under different parents may share a
    number. *)
Record fr_dict_attr_t : Type := {
  parent : Z;
  attr : Z;
  da_name : string;
  da_type : fr_type_t
}.

Definition da_eqb (a b : fr_dict_attr_t) : bool :=
  (parent a =? parent b) && (attr a =? attr b)
  && String.eqb (da_name a) (da_name b)
  && fr_type_eqb (da_type a) (da_type b).

(** A value box: a tagged union. *)
Inductive fr_value_box_t : Type :=
| vb_null
| vb_string (strvalue : string)
| vb_uint32 (n : Z)
| vb_uint64 (n : Z).

Definition vb_type (vb : fr_value_box_t) : fr_type_t :=
  match vb with
  | vb_null => FR_TYPE_NULL
  | vb_string _ => FR_TYPE_STRING
  | vb_uint32 _ => FR_TYPE_UINT32
  | vb_uint64 _ => FR_TYPE_UINT64
  end.

(** [vb->vb_strvalue]; the xlat argument parsers of the module declare
    [.type = FR_TYPE_STRING], so the boxes it reads are strings. *)
Definition vb_strvalue (vb : fr_value_box_t) : string :=
  match vb with
  | vb_string s => s
  | _ => EmptyString
  end.

Definition vb_length (vb : fr_value_box_t) : Z :=
  Z.of_nat (String.length (vb_strvalue vb)).

(** Map operators ([fr_token_t]); the module only copies them. *)
Inductive fr_token_t : Type :=
| T_OP_SET
| T_OP_EQ
| T_OP_ADD_EQ.

Record fr_pair_t : Type := {
  da : fr_dict_attr_t;
  op : fr_token_t;
  data : fr_value_box_t
}.

Definition fr_pair_list_t : Type := list fr_pair_t.

(** A template: its kind, its text, and the two union arms the module
    reads through [tmpl_da] and [tmpl_value]. *)
Record tmpl_t : Type := {
  type : tmpl_type_t;
  name : string;
  tmpl_da : fr_dict_attr_t;
  tmpl_value : fr_value_box_t
}.

Definition len (vpt : tmpl_t) : Z := Z.of_nat (String.length (name vpt)).
Definition tmpl_is_attr (vpt : tmpl_t) : bool :=
  match type vpt with TMPL_TYPE_ATTR => true | _ => false end.
Definition tmpl_value_type (vpt : tmpl_t) : fr_type_t := vb_type (tmpl_value vpt).
Definition tmpl_value_length (vpt : tmpl_t) : Z := vb_length (tmpl_value vpt).

(** Configuration items are named by a number; [cf_log_err] attaches a
    message to one of them. *)
Definition CONF_ITEM : Type := Z.

Record map_t : Type := {
  lhs : tmpl_t;
  map_op : fr_token_t;
  rhs : tmpl_t;
  ci : CONF_ITEM
}.

Definition map_list_t : Type := list map_t.

(** The request: its dictionary and the attribute list that
    [map_to_request] writes to and [tmpl_copy_pairs] reads from. *)
Record request_t : Type := {
  dict : list fr_dict_attr_t;
  request_pairs : fr_pair_list_t
}.

Inductive rlm_rcode_t : Type :=
| RLM_MODULE_FAIL
| RLM_MODULE_NOOP
| RLM_MODULE_UPDATED.

Inductive xlat_action_t : Type :=
| XLAT_ACTION_DONE
| XLAT_ACTION_FAIL.

(** ** Integer conversions written out *)

(** [%zu]: the argument is read as a 64-bit [size_t]. *)
Definition SIZE_MAX : Z := 2 ^ 64 - 1.
Definition to_size_t (z : Z) : Z := z mod 2 ^ 64.
Definition print_zu (z : Z) : string :=
  NilZero.string_of_uint (N.to_uint (Z.to_N (to_size_t z))).

(** Reading an unsigned decimal number back from its text ([None] when
    the text is empty or has a byte that is no digit). *)
Definition read_zu (s : string) : option Z :=
  match NilZero.uint_of_string s with
  | Some u => Some (Z.of_N (N.of_uint u))
  | None => None
  end.

(** [(int) x] for a [size_t] x: reduction to 32 bits, two's complement. *)
Definition to_int (z : Z) : Z := (z + 2 ^ 31) mod 2 ^ 32 - 2 ^ 31.

(** ** The library services the module calls

    A C function that returns a status and writes through a pointer is a
    function to a pair (status, written value); a pointer that may be NULL
    is an [option]. *)

(** Result of [fr_jpath_parse]: the returned length (or negated offset),
    the head node written through the out-pointer, and the message left
    for [fr_strerror]. *)
Record jpath_parse_t (node : Type) : Type := {
  slen : Z;
  head : option node;
  fr_strerror : string
}.
Arguments slen {node} _.
Arguments head {node} _.
Arguments fr_strerror {node} _.

Record collaborators : Type := {
  (* build configuration: json-c provides json_object_get_int64 *)
  HAVE_JSON_OBJECT_GET_INT64 : bool;
  (* opaque library types *)
  json_object : Type;
  fr_jpath_node_t : Type;
  fr_json_format_t : Type;
  (* jpath compiler and evaluator *)
  fr_jpath_parse : string -> Z -> jpath_parse_t fr_jpath_node_t;
  fr_jpath_asprint : option fr_jpath_node_t -> string;
  fr_jpath_evaluate_leaf :
    request_t -> fr_type_t -> fr_dict_attr_t -> json_object ->
    option fr_jpath_node_t -> Z * list fr_value_box_t;
  (* json-c and the JSON helpers of the server *)
  json_tokener_parse_ex : string -> Z -> option json_object;
  fr_json_from_string : string -> option string;
  fr_json_afrom_pair_list : fr_pair_list_t -> fr_json_format_t -> option string;
  (* value boxes *)
  fr_value_box_list_concat_in_place :
    list fr_value_box_t -> Z * fr_value_box_t;
  fr_value_box_steal : fr_value_box_t -> Z * fr_value_box_t;
  (* maps and templates *)
  map_to_request :
    request_t -> map_t -> (request_t -> map_t -> Z * fr_pair_list_t) ->
    Z * request_t;
  tmpl_aexpand : request_t -> tmpl_t -> Z * string;
  tmpl_afrom_attr_substr :
    list fr_dict_attr_t -> list ascii -> list ascii -> Z * option tmpl_t;
  tmpl_copy_pairs : request_t -> option tmpl_t -> Z * fr_pair_list_t;
  (* diagnostics *)
  fr_canonicalize_error : Z -> string -> string * string
}.

(** ** String buffers

    An [fr_sbuff_t] over a fixed string is the list of bytes not yet
    consumed. *)
Definition fr_sbuff_t : Type := list ascii.

Definition FR_SBUFF_IN (s : string) (n : Z) : fr_sbuff_t :=
  firstn (Z.to_nat n) (list_ascii_of_string s).

(** Modelled from the spec: the white-space class of the buffer library
    ([fr_sbuff_adv_past_whitespace] is not in the module); tokens are split
    on white space: tab, line feed, vertical tab, form feed, carriage
    return and space. *)
Definition sbuff_char_whitespace (c : ascii) : bool :=
  let n := nat_of_ascii c in
  (Nat.leb 9 n && Nat.leb n 13) || Nat.eqb n 32.

Fixpoint fr_sbuff_adv_past_whitespace (sbuff : fr_sbuff_t) : fr_sbuff_t :=
  match sbuff with
  | c :: rest =>
      if sbuff_char_whitespace c then fr_sbuff_adv_past_whitespace rest
      else sbuff
  | [] => []
  end.

(** [fr_sbuff_extend]: true while bytes remain. *)
Definition fr_sbuff_extend (sbuff : fr_sbuff_t) : bool :=
  match sbuff with [] => false | _ :: _ => true end.

(** [fr_sbuff_next_if_char]: consumes the byte if it is [c]. *)
Definition fr_sbuff_next_if_char (sbuff : fr_sbuff_t) (c : ascii)
  : bool * fr_sbuff_t :=
  match sbuff with
  | x :: rest => if Ascii.eqb x c then (true, rest) else (false, sbuff)
  | [] => (false, sbuff)
  end.

Definition fr_sbuff_advance (sbuff : fr_sbuff_t) (n : Z) : fr_sbuff_t :=
  skipn (Z.to_nat n) sbuff.

(** [json_arg_parse_rules]: the terminals that end an attribute reference
    in the argument of the encoder. *)
Definition json_arg_parse_rules : list ascii :=
  [ascii_of_nat 9; ascii_of_nat 32; ascii_of_nat 33].

(** ** The module

    What the module prints for debugging ([REDEBUG], [RPEDEBUG],
    [REMARKER]) and the release of memory are left out; the diagnostics of
    [cf_log_err] are part of the result of the instantiation. *)

Section Model.

Context (E : collaborators).

(** [rlm_json_jpath_cache_t]: one entry of the chain of compiled
    expressions.  The chain itself is the list of its entries: [next] is
    the tail of the list and a NULL pointer is the empty list. *)
Record rlm_json_jpath_cache_t : Type := {
  jpath : option (fr_jpath_node_t E)
}.

Definition cache_chain : Type := list rlm_json_jpath_cache_t.

(** [talloc_zero(cache, rlm_json_jpath_cache_t)] *)
Definition talloc_zero_cache : rlm_json_jpath_cache_t := {| jpath := None |}.

Record rlm_json_jpath_to_eval_t : Type := {
  to_eval_jpath : option (fr_jpath_node_t E);
  root : json_object E
}.

(** [talloc_array_length] of a NUL-terminated talloc string. *)
Definition talloc_array_length (s : string) : Z :=
  Z.of_nat (String.length s) + 1.

(** *** json_quote_xlat *)

Definition json_quote_xlat (out in_ : list fr_value_box_t)
  : xlat_action_t * list fr_value_box_t :=
  match in_ with
  | [] => (XLAT_ACTION_DONE, out)            (* Empty input is allowed *)
  | in_head :: _ =>
      match fr_json_from_string E (vb_strvalue in_head) with
      | None => (XLAT_ACTION_FAIL, out)
      | Some tmp => (XLAT_ACTION_DONE, out ++ [vb_string tmp])
      end
  end.

(** *** jpath_validate_xlat

    The argument is declared [.required = true]; with no argument the C
    code would read through a NULL [path], which is [None] here. *)
Definition jpath_validate_xlat (out in_ : list fr_value_box_t)
  : option (xlat_action_t * list fr_value_box_t) :=
  match in_ with
  | [] => None
  | path :: _ =>
      let p := fr_jpath_parse E (vb_strvalue path) (vb_length path) in
      if slen p <=? 0 then
        let vb := vb_string (print_zu (- slen p) ++ ":" ++ fr_strerror p) in
        Some (XLAT_ACTION_DONE, out ++ [vb])
      else
        let jpath_str := fr_jpath_asprint E (head p) in
        let vb := vb_string (print_zu (slen p) ++ ":" ++ jpath_str) in
        Some (XLAT_ACTION_DONE, out ++ [vb])
  end.

(** *** json_encode_xlat *)

(** The inner [while (vpm)] loop: delete from [json_vps] every pair whose
    attribute is [vp->da]. *)
Fixpoint fr_pair_delete_da (vp : fr_pair_t) (json_vps : fr_pair_list_t)
  : fr_pair_list_t :=
  match json_vps with
  | [] => []
  | vpm :: next =>
      if da_eqb (da vp) (da vpm) then fr_pair_delete_da vp next
      else vpm :: fr_pair_delete_da vp next
  end.

(** The outer [for (vp ...)] loop over the pairs of the template. *)
Fixpoint json_encode_negate (vps json_vps : fr_pair_list_t) : fr_pair_list_t :=
  match vps with
  | [] => json_vps
  | vp :: rest => json_encode_negate rest (fr_pair_delete_da vp json_vps)
  end.

Inductive json_encode_outcome : Type :=
| ENCODE_LIST (json_vps : fr_pair_list_t)   (* the loop ended *)
| ENCODE_ERROR                              (* goto error *)
| ENCODE_FUEL.                              (* the model ran out of steps *)

(** The [while (fr_sbuff_extend(&sbuff))] loop.  [vps] is empty at the
    head of every iteration (both branches leave it empty), so it is local
    to the body.  The template parser consumes [slen] bytes. *)
Fixpoint json_encode_loop (fuel : nat) (request : request_t)
    (sbuff : fr_sbuff_t) (json_vps : fr_pair_list_t) : json_encode_outcome :=
  if negb (fr_sbuff_extend sbuff) then ENCODE_LIST json_vps else
  match fuel with
  | O => ENCODE_FUEL
  | S fuel' =>
      let '(negate, sbuff) := fr_sbuff_next_if_char sbuff (ascii_of_nat 33) in
      let '(slen, vpt) :=
        tmpl_afrom_attr_substr E (dict request) sbuff json_arg_parse_rules in
      if slen <=? 0 then ENCODE_ERROR else
      let sbuff := fr_sbuff_advance sbuff slen in
      let '(rc, vps) := tmpl_copy_pairs E request vpt in
      if rc <? -1 then ENCODE_ERROR else
      let json_vps :=
        if negate : bool then json_encode_negate vps json_vps
        else json_vps ++ vps in
      json_encode_loop fuel' request (fr_sbuff_adv_past_whitespace sbuff) json_vps
  end.

Definition json_encode_xlat (format : fr_json_format_t E) (request : request_t)
    (out in_ : list fr_value_box_t)
  : option (xlat_action_t * list fr_value_box_t) :=
  match in_ with
  | [] => None
  | in_head :: _ =>
      let sbuff := FR_SBUFF_IN (vb_strvalue in_head) (vb_length in_head) in
      let sbuff := fr_sbuff_adv_past_whitespace sbuff in
      match json_encode_loop (List.length sbuff) request sbuff [] with
      | ENCODE_FUEL => None
      | ENCODE_ERROR => Some (XLAT_ACTION_FAIL, out)
      | ENCODE_LIST json_vps =>
          match fr_json_afrom_pair_list E json_vps format with
          | None => Some (XLAT_ACTION_FAIL, out)
          | Some json_str => Some (XLAT_ACTION_DONE, out ++ [vb_string json_str])
          end
      end
  end.

(** *** mod_map_proc_instantiate *)

(** What [cf_log_err] reported: the item and the message. *)
Definition cf_log : Type := list (CONF_ITEM * string).

Definition map_list_next_exists (rest : map_list_t) : bool :=
  match rest with [] => false | _ :: _ => true end.

(** The [while ((map = map_list_next(maps, map)))] loop.  [done] holds the
    entries of the chain before the current one and [cache] is the entry
    the [cache] pointer designates (the last of the chain); the result is
    the status, the chain from [cache_inst] on, and the diagnostics. *)
Fixpoint instantiate_maps (maps : map_list_t) (done : cache_chain)
    (cache : rlm_json_jpath_cache_t) : Z * cache_chain * cf_log :=
  match maps with
  | [] => (0, done ++ [cache], [])
  | map :: rest =>
      let cp := ci map in
      if negb (HAVE_JSON_OBJECT_GET_INT64 E)
         && tmpl_is_attr (lhs map)
         && fr_type_eqb (da_type (tmpl_da (lhs map))) FR_TYPE_UINT64
      then
        (-1, done ++ [cache],
         [(cp, "64bit integers are not supported by linked json-c.  Upgrade to json-c >= 0.10 to use this feature")])
      else
        let compile (p : string) (n : Z) :=
          let r := fr_jpath_parse E p n in
          let cache := {| jpath := head r |} in
          if slen r <=? 0 then
            let '(spaces, text) := fr_canonicalize_error E (slen r) (fr_strerror r) in
            (-1, done ++ [cache],
             [(cp, "Syntax error"); (cp, p); (cp, (spaces ++ "^ " ++ text)%string)])
          else if map_list_next_exists rest then
            instantiate_maps rest (done ++ [cache]) talloc_zero_cache
          else
            instantiate_maps rest done cache in
        match type (rhs map) with
        | TMPL_TYPE_UNRESOLVED =>
            compile (name (rhs map)) (len (rhs map))
        | TMPL_TYPE_DATA =>
            if negb (fr_type_eqb (tmpl_value_type (rhs map)) FR_TYPE_STRING) then
              (-1, done ++ [cache], [(cp, "Right side of map must be a string")])
            else
              compile (vb_strvalue (tmpl_value (rhs map)))
                      (tmpl_value_length (rhs map))
        | _ => instantiate_maps rest done cache       (* continue *)
        end
  end.

(** [cs] is the section of the map, [proc_inst] the pre-allocated first
    entry of the chain, [src] the template of the JSON source (NULL when
    absent). *)
Definition mod_map_proc_instantiate (cs : CONF_ITEM)
    (proc_inst : rlm_json_jpath_cache_t) (src : option tmpl_t)
    (maps : map_list_t) : Z * cache_chain * cf_log :=
  match src with
  | None => (-1, [proc_inst], [(cs, "Missing JSON source")])
  | Some _ => instantiate_maps maps [] proc_inst
  end.

(** *** _json_map_proc_get_value *)

(** The [for (value = fr_dlist_head(&head); ...)] loop. *)
Fixpoint steal_values (map : map_t) (values : list fr_value_box_t)
    (out : fr_pair_list_t) : Z * fr_pair_list_t :=
  match values with
  | [] => (0, out)
  | value :: rest =>
      let '(rc, stolen) := fr_value_box_steal E value in
      if rc <? 0 then (-1, [])                      (* fr_pair_list_free(out) *)
      else
        let vp := {| da := tmpl_da (lhs map); op := map_op map; data := stolen |} in
        steal_values map rest (out ++ [vp])
  end.

Definition _json_map_proc_get_value (to_eval : rlm_json_jpath_to_eval_t)
    (request : request_t) (map : map_t) : Z * fr_pair_list_t :=
  let '(ret, values) :=
    fr_jpath_evaluate_leaf E request (da_type (tmpl_da (lhs map)))
      (tmpl_da (lhs map)) (root to_eval) (to_eval_jpath to_eval) in
  if ret <? 0 then (-1, [])
  else if ret =? 0 then (0, [])
  else steal_values map values [].

(** *** mod_map_proc *)

(** The [while ((map = map_list_next(maps, map)))] loop of the evaluator.
    [cache] is the cursor into the chain; reading [cache->jpath] through a
    NULL cursor is [None].  The result carries the cursor the loop stopped
    with. *)
Fixpoint mod_map_proc_maps (root : json_object E) (maps : map_list_t)
    (cache : cache_chain) (request : request_t) (rcode : rlm_rcode_t)
  : option (rlm_rcode_t * request_t * cache_chain) :=
  match maps with
  | [] => Some (rcode, request, cache)
  | map :: rest =>
      match type (rhs map) with
      | TMPL_TYPE_UNRESOLVED
      | TMPL_TYPE_DATA =>
          match cache with
          | [] => None
          | entry :: next =>
              let to_eval := {| to_eval_jpath := jpath entry; root := root |} in
              let '(ret, request) :=
                map_to_request E request map (_json_map_proc_get_value to_eval) in
              if ret <? 0 then Some (RLM_MODULE_FAIL, request, cache)
              else mod_map_proc_maps root rest next request rcode
          end
      | _ =>
          let '(ret, to_parse) := tmpl_aexpand E request (rhs map) in
          if ret <? 0 then Some (RLM_MODULE_FAIL, request, cache) else
          let r := fr_jpath_parse E to_parse (talloc_array_length to_parse - 1) in
          if slen r <=? 0 then Some (RLM_MODULE_FAIL, request, cache) else
          let to_eval := {| to_eval_jpath := head r; root := root |} in
          let '(ret, request) :=
            map_to_request E request map (_json_map_proc_get_value to_eval) in
          if ret <? 0 then Some (RLM_MODULE_FAIL, request, cache)
          else mod_map_proc_maps root rest cache request rcode
      end
  end.

Definition mod_map_proc (proc_inst : cache_chain) (request : request_t)
    (json : list fr_value_box_t) (maps : map_list_t)
  : option (rlm_rcode_t * request_t) :=
  let rcode := RLM_MODULE_UPDATED in
  match json with
  | [] => Some (RLM_MODULE_FAIL, request)
  | _ :: _ =>
      let '(rc, json_head) := fr_value_box_list_concat_in_place E json in
      if rc <? 0 then Some (RLM_MODULE_FAIL, request) else
      let json_str := vb_strvalue json_head in
      if to_size_t (talloc_array_length json_str - 1) =? 0 then
        Some (RLM_MODULE_FAIL, request)
      else
        match json_tokener_parse_ex E json_str
                (to_int (talloc_array_length json_str - 1)) with
        | None => Some (RLM_MODULE_FAIL, request)
        | Some root =>
            match mod_map_proc_maps root maps proc_inst request rcode with
            | None => None
            | Some (rcode, request, _) => Some (rcode, request)
            end
        end
  end.

End Model.

Arguments jpath {E} _.
Arguments to_eval_jpath {E} _.
Arguments root {E} _.

(** ** A concrete instance of the library services

    Small stand-ins for the services, used to run the module on explicit
    inputs: documents are flat objects with string members, a path has
    the form [$.field], and a request delivers the pairs a map produces by
    appending them to its attribute list. *)

Module Sample.

Definition dq : ascii := ascii_of_nat 34.
Definition bs : ascii := ascii_of_nat 92.

(** The text [s] between double quotes. *)
Definition quoted (s : string) : string :=
  String dq (s ++ String dq EmptyString)%string.

(** The text of a flat object with one or two members. *)
Definition member (k v : string) : string := (quoted k ++ ":" ++ quoted v)%string.
Definition object1 (k v : string) : string := ("{" ++ member k v ++ "}")%string.
Definition object2 (k1 v1 k2 v2 : string) : string :=
  ("{" ++ member k1 v1 ++ "," ++ member k2 v2 ++ "}")%string.

(** Modelled from the spec: the document parser, [parse(bytes, length)]
    giving a document root or a parse error; here for flat objects whose
    members are strings without escapes. *)
Definition json_object : Type := list (string * string).

Fixpoint scan_string (s : list ascii) : option (string * list ascii) :=
  match s with
  | [] => None
  | c :: rest =>
      if Ascii.eqb c dq then Some (EmptyString, rest)
      else match scan_string rest with
           | Some (t, r) => Some (String c t, r)
           | None => None
           end
  end.

Fixpoint parse_members (fuel : nat) (s : list ascii) (acc : json_object)
  : option json_object :=
  match fuel, s with
  | S fuel', q :: s1 =>
      if negb (Ascii.eqb q dq) then None else
      match scan_string s1 with
      | Some (k, colon :: q2 :: s2) =>
          if negb (Ascii.eqb colon ":" && Ascii.eqb q2 dq) then None else
          match scan_string s2 with
          | Some (v, sep :: s3) =>
              if Ascii.eqb sep "," then parse_members fuel' s3 (acc ++ [(k, v)])
              else if Ascii.eqb sep "}" then
                match s3 with [] => Some (acc ++ [(k, v)]) | _ :: _ => None end
              else None
          | _ => None
          end
      | _ => None
      end
  | _, _ => None
  end.

Definition json_tokener_parse_ex (str : string) (n : Z) : option json_object :=
  match firstn (Z.to_nat n) (list_ascii_of_string str) with
  | open :: rest =>
      if negb (Ascii.eqb open "{") then None else
      match rest with
      | [close] => if Ascii.eqb close "}" then Some [] else parse_members 1 rest []
      | _ => parse_members (List.length rest) rest []
      end
  | [] => None
  end.

(** Modelled from the spec: the expression compiler,
    [compile(text, length)] giving the compiled expression and the
    consumed length, or the negated offset of a syntax error, and
    [reprint]; here for expressions [$.field]. *)
Definition fr_jpath_node_t : Type := string.

Definition is_name_char (c : ascii) : bool :=
  let n := nat_of_ascii c in
  (Nat.leb 48 n && Nat.leb n 57) || (Nat.leb 65 n && Nat.leb n 90)
  || (Nat.leb 97 n && Nat.leb n 122) || Nat.eqb n 45 || Nat.eqb n 95.

Fixpoint name_run (s : string) : nat :=
  match s with
  | String c rest => if is_name_char c then S (name_run rest) else O
  | EmptyString => O
  end.

Definition fr_jpath_parse (p : string) (n : Z) : jpath_parse_t fr_jpath_node_t :=
  let failed (offset : Z) (msg : string) :=
    {| slen := - offset; head := None; fr_strerror := msg |} in
  match substring 0 (Z.to_nat n) p with
  | String d rest =>
      if negb (Ascii.eqb d "$") then failed 0 "Expected root specifier '$'" else
      match rest with
      | String dot field =>
          if negb (Ascii.eqb dot ".") then failed 1 "Expected field specifier '.'" else
          let k := name_run field in
          if Nat.eqb k 0 then failed 2 "Empty field specifier"
          else if Nat.eqb k (String.length field) then
            {| slen := 2 + Z.of_nat k; head := Some field; fr_strerror := EmptyString |}
          else failed (2 + Z.of_nat k) "Unexpected text after field specifier"
      | EmptyString => failed 1 "Expected field specifier '.'"
      end
  | EmptyString => failed 0 "Empty path"
  end.

Definition fr_jpath_asprint (node : option fr_jpath_node_t) : string :=
  match node with
  | Some field => ("$." ++ field)%string
  | None => EmptyString
  end.

(** Modelled from the spec: the expression evaluator,
    [evaluate(compiled_expr, document_root, target_type_hint)] giving the
    ordered typed leaf values or an evaluation error; a member that is not
    a decimal number of the target width cannot be represented in an
    integer type. *)
Definition decimal (v : string) : option Z :=
  match NilZero.uint_of_string v with
  | Some u => Some (Z.of_N (N.of_uint u))
  | None => None
  end.

Definition coerce (t : fr_type_t) (v : string) : option fr_value_box_t :=
  match t with
  | FR_TYPE_STRING => Some (vb_string v)
  | FR_TYPE_UINT32 =>
      match decimal v with
      | Some n => if n <? 2 ^ 32 then Some (vb_uint32 n) else None
      | None => None
      end
  | FR_TYPE_UINT64 =>
      match decimal v with
      | Some n => if n <? 2 ^ 64 then Some (vb_uint64 n) else None
      | None => None
      end
  | FR_TYPE_NULL => None
  end.

Fixpoint coerce_all (t : fr_type_t) (vs : list string) : option (list fr_value_box_t) :=
  match vs with
  | [] => Some []
  | v :: rest =>
      match coerce t v, coerce_all t rest with
      | Some b, Some bs => Some (b :: bs)
      | _, _ => None
      end
  end.

Definition fr_jpath_evaluate_leaf (request : request_t) (t : fr_type_t)
    (d : fr_dict_attr_t) (root : json_object) (node : option fr_jpath_node_t)
  : Z * list fr_value_box_t :=
  match node with
  | None => (-1, [])
  | Some field =>
      let leaves := map snd (filter (fun kv => String.eqb (fst kv) field) root) in
      match coerce_all t leaves with
      | None => (-1, [])
      | Some [] => (0, [])
      | Some values => (1, values)
      end
  end.

(** Modelled from the spec: quoting of one string and the document
    encoder, [encode(name->value list, format_options)]; there are no
    format options and every pair is one member. *)
Fixpoint escape (s : string) : string :=
  match s with
  | String c rest =>
      if Ascii.eqb c dq || Ascii.eqb c bs then String bs (String c (escape rest))
      else String c (escape rest)
  | EmptyString => EmptyString
  end.

Definition fr_json_from_string (s : string) : option string := Some (escape s).

Definition fr_json_format_t : Type := unit.

Definition print_value (vb : fr_value_box_t) : string :=
  match vb with
  | vb_null => "null"
  | vb_string s => quoted (escape s)
  | vb_uint32 n => print_zu n
  | vb_uint64 n => print_zu n
  end.

Fixpoint print_members (vps : fr_pair_list_t) : string :=
  match vps with
  | [] => EmptyString
  | [vp] => (quoted (da_name (da vp)) ++ ":" ++ print_value (data vp))%string
  | vp :: rest =>
      (quoted (da_name (da vp)) ++ ":" ++ print_value (data vp) ++ ","
       ++ print_members rest)%string
  end.

Definition fr_json_afrom_pair_list (vps : fr_pair_list_t) (format : fr_json_format_t)
  : option string :=
  Some ("{" ++ print_members vps ++ "}")%string.

(** Value boxes: concatenation of string boxes, and a move that always
    succeeds. *)
Fixpoint concat_boxes (l : list fr_value_box_t) : option string :=
  match l with
  | [] => Some EmptyString
  | vb_string s :: rest =>
      match concat_boxes rest with
      | Some t => Some (s ++ t)%string
      | None => None
      end
  | _ :: _ => None
  end.

Definition fr_value_box_list_concat_in_place (l : list fr_value_box_t)
  : Z * fr_value_box_t :=
  match concat_boxes l with
  | Some s => (0, vb_string s)
  | None => (-1, List.hd vb_null l)
  end.

Definition fr_value_box_steal (value : fr_value_box_t) : Z * fr_value_box_t :=
  (0, value).

(** Modelled from the spec: the output sink.  The values a mapping
    produces are delivered in match order; a mapping whose callback fails
    delivers nothing and reports the failure. *)
Definition map_to_request (request : request_t) (map : map_t)
    (func : request_t -> map_t -> Z * fr_pair_list_t) : Z * request_t :=
  let '(rcode, src_list) := func request map in
  if rcode <? 0 then (rcode, request)
  else (0, {| dict := dict request;
              request_pairs := request_pairs request ++ src_list |}).

(** Modelled from the spec: the named-value provider.  A reference is the
    run of bytes up to the next terminal and resolves when it is a name of
    the dictionary; its group is the pairs of that attribute. *)
Fixpoint take_until (terminals : list ascii) (s : list ascii) : list ascii :=
  match s with
  | [] => []
  | c :: rest =>
      if existsb (Ascii.eqb c) terminals then []
      else c :: take_until terminals rest
  end.

Definition tmpl_afrom_attr_substr (dict_def : list fr_dict_attr_t)
    (sbuff : list ascii) (terminals : list ascii) : Z * option tmpl_t :=
  let run := string_of_list_ascii (take_until terminals sbuff) in
  match find (fun d => String.eqb (da_name d) run) dict_def with
  | Some d =>
      if Nat.eqb (String.length run) 0 then (0, None)
      else (Z.of_nat (String.length run),
            Some {| type := TMPL_TYPE_ATTR; name := run;
                    tmpl_da := d; tmpl_value := vb_null |})
  | None => (0, None)
  end.

Definition tmpl_copy_pairs (request : request_t) (vpt : option tmpl_t)
  : Z * fr_pair_list_t :=
  match vpt with
  | None => (-2, [])
  | Some t =>
      let found := filter (fun vp => da_eqb (da vp) (tmpl_da t)) (request_pairs request) in
      match found with
      | [] => (-1, [])
      | _ :: _ => (0, found)
      end
  end.

(** Modelled from the spec: runtime string expansion.  Text and literal
    data expand to themselves, an attribute reference to the value of its
    first pair; programs, regular expressions and the null template have
    no expansion. *)
Definition tmpl_aexpand (request : request_t) (vpt : tmpl_t) : Z * string :=
  let expanded (s : string) := (Z.of_nat (String.length s), s) in
  match type vpt with
  | TMPL_TYPE_UNRESOLVED | TMPL_TYPE_XLAT => expanded (name vpt)
  | TMPL_TYPE_DATA => expanded (vb_strvalue (tmpl_value vpt))
  | TMPL_TYPE_ATTR =>
      match find (fun vp => da_eqb (da vp) (tmpl_da vpt)) (request_pairs request) with
      | Some vp => expanded (vb_strvalue (data vp))
      | None => (-1, EmptyString)
      end
  | TMPL_TYPE_EXEC | TMPL_TYPE_REGEX | TMPL_TYPE_NULL => (-1, EmptyString)
  end.

Fixpoint spaces (n : nat) : string :=
  match n with
  | O => EmptyString
  | S k => String " " (spaces k)
  end.

Definition fr_canonicalize_error (slen : Z) (msg : string) : string * string :=
  (spaces (Z.to_nat (- slen)), msg).

(** The services, for a json-c with or without 64-bit integers. *)
Definition services (have_int64 : bool) : collaborators :=
  Build_collaborators have_int64 json_object fr_jpath_node_t fr_json_format_t
    fr_jpath_parse fr_jpath_asprint fr_jpath_evaluate_leaf
    json_tokener_parse_ex fr_json_from_string fr_json_afrom_pair_list
    fr_value_box_list_concat_in_place fr_value_box_steal
    map_to_request tmpl_aexpand tmpl_afrom_attr_substr tmpl_copy_pairs
    fr_canonicalize_error.

End Sample.

(** *** Sample inputs *)

Module Inputs.

Definition User_Name : fr_dict_attr_t :=
  {| parent := 0; attr := 1; da_name := "User-Name"; da_type := FR_TYPE_STRING |}.
Definition User_Password : fr_dict_attr_t :=
  {| parent := 0; attr := 2; da_name := "User-Password"; da_type := FR_TYPE_STRING |}.
Definition Filter_Id : fr_dict_attr_t :=
  {| parent := 0; attr := 11; da_name := "Filter-Id"; da_type := FR_TYPE_STRING |}.
Definition Reply_Message : fr_dict_attr_t :=
  {| parent := 0; attr := 18; da_name := "Reply-Message"; da_type := FR_TYPE_STRING |}.
Definition Session_Timeout : fr_dict_attr_t :=
  {| parent := 0; attr := 27; da_name := "Session-Timeout"; da_type := FR_TYPE_UINT32 |}.
Definition Acct_Input_Octets64 : fr_dict_attr_t :=
  {| parent := 0; attr := 1042; da_name := "Acct-Input-Octets64"; da_type := FR_TYPE_UINT64 |}.

Definition dictionary : list fr_dict_attr_t :=
  [User_Name; User_Password; Filter_Id; Reply_Message; Session_Timeout;
   Acct_Input_Octets64].

Definition pair (d : fr_dict_attr_t) (v : string) : fr_pair_t :=
  {| da := d; op := T_OP_EQ; data := vb_string v |}.

(** A request holding User-Name, User-Password and Filter-Id. *)
Definition request : request_t :=
  {| dict := dictionary;
     request_pairs := [pair User_Name "bob"; pair User_Password "secret";
                       pair Filter_Id "x"] |}.

(** A request with an empty attribute list. *)
Definition empty_request : request_t :=
  {| dict := dictionary; request_pairs := [] |}.

Definition tmpl_attr (d : fr_dict_attr_t) : tmpl_t :=
  {| type := TMPL_TYPE_ATTR; name := da_name d; tmpl_da := d; tmpl_value := vb_null |}.

Definition tmpl_of (k : tmpl_type_t) (text : string) : tmpl_t :=
  {| type := k; name := text; tmpl_da := User_Name; tmpl_value := vb_string text |}.

(** The map [d = text], whose right-hand side has kind [k]. *)
Definition map_of (d : fr_dict_attr_t) (k : tmpl_type_t) (text : string) (item : Z) : map_t :=
  {| lhs := tmpl_attr d; map_op := T_OP_SET; rhs := tmpl_of k text; ci := item |}.

(** The source template of a map section, [&reply.Filter-Id] say. *)
Definition src : option tmpl_t := Some (tmpl_attr Filter_Id).

(** The services with a json-c that has 64-bit integers, and without. *)
Definition W : collaborators := Sample.services true.
Definition W_old : collaborators := Sample.services false.

(** Mappings: [Reply-Message = $.msg] as static text, as an expansion and
    as a regular expression; [Session-Timeout = $.t]; and a mapping to a
    64-bit attribute. *)
Definition map_msg : map_t := map_of Reply_Message TMPL_TYPE_UNRESOLVED "$.msg" 100.
Definition map_timeout : map_t := map_of Session_Timeout TMPL_TYPE_UNRESOLVED "$.t" 101.
Definition map_xlat : map_t := map_of Reply_Message TMPL_TYPE_XLAT "$.msg" 102.
Definition map_regex : map_t := map_of Reply_Message TMPL_TYPE_REGEX "$.msg" 103.
Definition map_octets : map_t :=
  map_of Acct_Input_Octets64 TMPL_TYPE_UNRESOLVED "$.octets" 104.

(** Chains: the pre-allocated entry, and the chains instantiation builds
    for [map_msg], for [map_msg; map_timeout] and for [map_msg; map_xlat]. *)
Definition blank : rlm_json_jpath_cache_t W := talloc_zero_cache W.
Definition compiled (field : string) : rlm_json_jpath_cache_t W :=
  {| jpath := Some field : option (fr_jpath_node_t W) |}.
Definition chain_msg : cache_chain W := [compiled "msg"].
Definition chain_msg_timeout : cache_chain W := [compiled "msg"; compiled "t"].
Definition chain_msg_xlat : cache_chain W := [compiled "msg"; blank].

(** Documents. *)
Definition doc_hello : string := Sample.object1 "msg" "hello".
Definition doc_other : string := Sample.object1 "other" "x".
Definition doc_bad_timeout : string := Sample.object2 "msg" "hello" "t" "abc".
Definition root_hello : json_object W := [("msg", "hello")].
Definition root_bad_timeout : json_object W := [("msg", "hello"); ("t", "abc")].

(** The request after [map_msg] delivered its value. *)
Definition delivered_hello : request_t :=
  {| dict := dictionary;
     request_pairs := [{| da := Reply_Message; op := T_OP_SET;
                          data := vb_string "hello" |}] |}.

(** The reference [User-Name] as the builder scans it. *)
Definition User_Name_ref : list ascii := list_ascii_of_string "User-Name".

End Inputs.

(** ** Notions used to state the properties

    Each of them names a piece of the code above. *)

(** The right-hand side is one the module compiles at instantiation: the
    [case TMPL_TYPE_UNRESOLVED] and [case TMPL_TYPE_DATA] labels. *)
Definition static_rhs (m : map_t) : bool :=
  match type (rhs m) with
  | TMPL_TYPE_UNRESOLVED | TMPL_TYPE_DATA => true
  | _ => false
  end.

(** The entry [mod_map_proc_instantiate] fills for a static mapping. *)
Definition compiled_entry (E : collaborators) (m : map_t) : rlm_json_jpath_cache_t E :=
  match type (rhs m) with
  | TMPL_TYPE_DATA =>
      {| jpath := head (fr_jpath_parse E (vb_strvalue (tmpl_value (rhs m)))
                                         (tmpl_value_length (rhs m))) |}
  | _ => {| jpath := head (fr_jpath_parse E (name (rhs m)) (len (rhs m))) |}
  end.

(** The last mapping of the sequence is static. *)
Fixpoint ends_static (maps : map_list_t) : bool :=
  match maps with
  | [] => false
  | [m] => static_rhs m
  | _ :: rest => ends_static rest
  end.

(** The entry that stays behind the compiled ones: none when the last
    mapping is static; otherwise the entry allocated after the last static
    mapping, or the pre-allocated one when no mapping is static. *)
Definition spare_entry (E : collaborators) (proc_inst : rlm_json_jpath_cache_t E)
    (maps : map_list_t) : cache_chain E :=
  if ends_static maps then []
  else match filter static_rhs maps with
       | [] => [proc_inst]
       | _ :: _ => [talloc_zero_cache E]
       end.

(** The test under [#ifndef HAVE_JSON_OBJECT_GET_INT64]. *)
Definition uint64_unsupported (E : collaborators) (m : map_t) : bool :=
  negb (HAVE_JSON_OBJECT_GET_INT64 E)
  && tmpl_is_attr (lhs m)
  && fr_type_eqb (da_type (tmpl_da (lhs m))) FR_TYPE_UINT64.

Definition upgrade_diagnostic : string :=
  "64bit integers are not supported by linked json-c.  Upgrade to json-c >= 0.10 to use this feature".

(** The document root [mod_map_proc] works on: the steps before its loop. *)
Definition json_root (E : collaborators) (json : list fr_value_box_t)
  : option (json_object E) :=
  match json with
  | [] => None
  | _ :: _ =>
      let '(rc, json_head) := fr_value_box_list_concat_in_place E json in
      if rc <? 0 then None else
      let json_str := vb_strvalue json_head in
      if to_size_t (talloc_array_length json_str - 1) =? 0 then None
      else json_tokener_parse_ex E json_str (to_int (talloc_array_length json_str - 1))
  end.

(** The expression the loop of [mod_map_proc] hands to the evaluator for a
    mapping, when the loop gets that far: the entry under the cursor for a
    static mapping, the freshly compiled expansion otherwise. *)
Definition map_expression (E : collaborators) (request : request_t) (m : map_t)
    (cache : cache_chain E) : option (option (fr_jpath_node_t E)) :=
  if static_rhs m then
    match cache with
    | [] => None
    | entry :: _ => Some (jpath entry)
    end
  else
    let '(ret, to_parse) := tmpl_aexpand E request (rhs m) in
    if ret <? 0 then None else
    let r := fr_jpath_parse E to_parse (talloc_array_length to_parse - 1) in
    if slen r <=? 0 then None else Some (head r).

(** A byte sequence that can follow an attribute reference: the end of the
    buffer or one of the terminals. *)
Definition ends_reference (rest : list ascii) : Prop :=
  match rest with
  | [] => True
  | c :: _ => In c json_arg_parse_rules
  end.

(** The pairs an exclusion keeps: those whose attribute is not the
    attribute of any pair of the group. *)
Definition kept_by_exclusion (vps json_vps : fr_pair_list_t) : fr_pair_list_t :=
  filter (fun vpm => negb (existsb (fun vp => da_eqb (da vp) (da vpm)) vps)) json_vps.

Definition space : ascii := ascii_of_nat 32.
Definition bang : ascii := ascii_of_nat 33.

(** A byte sequence that can start an attribute reference: its first byte
    is neither white space nor the exclusion mark. *)
Definition starts_reference (a : list ascii) : Prop :=
  match a with
  | c :: _ => sbuff_char_whitespace c = false /\ Ascii.eqb c bang = false
  | [] => False
  end.

(** How [json_encode_xlat] ends once its loop has left the list [json_vps]. *)
Definition encoded (E : collaborators) (format : fr_json_format_t E)
    (out : list fr_value_box_t) (json_vps : fr_pair_list_t)
  : option (xlat_action_t * list fr_value_box_t) :=
  match fr_json_afrom_pair_list E json_vps format with
  | None => Some (XLAT_ACTION_FAIL, out)
  | Some json_str => Some (XLAT_ACTION_DONE, out ++ [vb_string json_str])
  end.

(** What [jpath_validate_xlat] gets from the compiler for its argument. *)
Definition validated (E : collaborators) (path : fr_value_box_t)
  : jpath_parse_t (fr_jpath_node_t E) :=
  fr_jpath_parse E (vb_strvalue path) (vb_length path).

(** ** Further notions and inputs *)

(** The checks one turn of the instantiation loop makes on a mapping:
    the target type, and for a static or literal right-hand side its type
    and its compilation. *)
Definition map_accepted (E : collaborators) (m : map_t) : bool :=
  negb (uint64_unsupported E m)
  && match type (rhs m) with
     | TMPL_TYPE_UNRESOLVED =>
         0 <? slen (fr_jpath_parse E (name (rhs m)) (len (rhs m)))
     | TMPL_TYPE_DATA =>
         fr_type_eqb (tmpl_value_type (rhs m)) FR_TYPE_STRING
         && (0 <? slen (fr_jpath_parse E (vb_strvalue (tmpl_value (rhs m)))
                                         (tmpl_value_length (rhs m))))
     | _ => true
     end.

(** The text and the length a static or literal right-hand side is
    compiled from. *)
Definition rhs_text (m : map_t) : string :=
  match type (rhs m) with
  | TMPL_TYPE_DATA => vb_strvalue (tmpl_value (rhs m))
  | _ => name (rhs m)
  end.

Definition rhs_length (m : map_t) : Z :=
  match type (rhs m) with
  | TMPL_TYPE_DATA => tmpl_value_length (rhs m)
  | _ => len (rhs m)
  end.

(** The three lines [mod_map_proc_instantiate] reports for a syntax
    error in the right-hand side of [m]. *)
Definition syntax_diagnostics (E : collaborators) (m : map_t) : cf_log :=
  let r := fr_jpath_parse E (rhs_text m) (rhs_length m) in
  let '(spaces, text) := fr_canonicalize_error E (slen r) (fr_strerror r) in
  [(ci m, "Syntax error"); (ci m, rhs_text m); (ci m, (spaces ++ "^ " ++ text)%string)].

(** The pair [_json_map_proc_get_value] makes of one matched leaf. *)
Definition leaf_pair (E : collaborators) (m : map_t) (value : fr_value_box_t)
  : fr_pair_t :=
  {| da := tmpl_da (lhs m); op := map_op m;
     data := snd (fr_value_box_steal E value) |}.

(** What the evaluator gets from the compiler for the expansion of the
    right-hand side of a dynamic mapping, and what [map_to_request]
    returns when it is called for the mapping with the expression so
    compiled. *)
Definition expansion_compiled (E : collaborators) (request : request_t) (m : map_t)
  : jpath_parse_t (fr_jpath_node_t E) :=
  fr_jpath_parse E (snd (tmpl_aexpand E request (rhs m)))
    (talloc_array_length (snd (tmpl_aexpand E request (rhs m))) - 1).

Definition dynamic_delivery (E : collaborators) (root : json_object E)
    (request : request_t) (m : map_t) : Z * request_t :=
  map_to_request E request m
    (_json_map_proc_get_value E
       {| to_eval_jpath := head (expansion_compiled E request m); root := root |}).

(** Bytes that are all white space. *)
Definition blank_bytes (ws : list ascii) : bool := forallb sbuff_char_whitespace ws.

Module Cases.

Import Inputs.

(** Mappings the instantiation rejects: a static text that is no path,
    and a literal that is a number. *)
Definition map_bad_syntax : map_t :=
  map_of Reply_Message TMPL_TYPE_UNRESOLVED "$.ms g" 105.
Definition map_number : map_t :=
  {| lhs := tmpl_attr Reply_Message; map_op := T_OP_SET;
     rhs := {| type := TMPL_TYPE_DATA; name := "5"; tmpl_da := User_Name;
               tmpl_value := vb_uint32 5 |};
     ci := 106 |}.

(** A document with two members [msg]. *)
Definition doc_two_msgs : string := Sample.object2 "msg" "hello" "msg" "again".
Definition root_two_msgs : json_object W := [("msg", "hello"); ("msg", "again")].

(** References: one the dictionary does not know, and one that resolves
    but has no pair in the request. *)
Definition Bogus_ref : list ascii := list_ascii_of_string "Bogus".
Definition Reply_Message_ref : list ascii := list_ascii_of_string "Reply-Message".
Definition Filter_Id_ref : list ascii := list_ascii_of_string "Filter-Id".

(** A provider that cannot copy: the sample services with a
    [tmpl_copy_pairs] that reports an error. *)
Definition failing_copy (request : request_t) (vpt : option tmpl_t)
  : Z * fr_pair_list_t := (-2, []).

Definition W_failing_copy : collaborators :=
  Build_collaborators true Sample.json_object Sample.fr_jpath_node_t
    Sample.fr_json_format_t Sample.fr_jpath_parse Sample.fr_jpath_asprint
    Sample.fr_jpath_evaluate_leaf Sample.json_tokener_parse_ex
    Sample.fr_json_from_string Sample.fr_json_afrom_pair_list
    Sample.fr_value_box_list_concat_in_place Sample.fr_value_box_steal
    Sample.map_to_request Sample.tmpl_aexpand Sample.tmpl_afrom_attr_substr
    failing_copy Sample.fr_canonicalize_error.

End Cases.

(** ** Properties of the helpers *)

Section Helpers.

Context (E : collaborators).

(** C9. [json_quote_xlat] called with no input value appends nothing to
    the output cursor and reports [XLAT_ACTION_DONE], whatever the string
    quoter would do. *)
Theorem json_quote_xlat_empty_input (out : list fr_value_box_t) :
  json_quote_xlat E out [] = (XLAT_ACTION_DONE, out).
Proof. reflexivity. Qed.

(** With an input value the quoter decides: one box is appended on
    success, none on failure. *)
Lemma json_quote_xlat_value (out : list fr_value_box_t) (in_head : fr_value_box_t)
    (rest : list fr_value_box_t) :
  json_quote_xlat E out (in_head :: rest) =
    match fr_json_from_string E (vb_strvalue in_head) with
    | Some tmp => (XLAT_ACTION_DONE, out ++ [vb_string tmp])
    | None => (XLAT_ACTION_FAIL, out)
    end.
Proof.
  simpl. destruct (fr_json_from_string E (vb_strvalue in_head)); reflexivity.
Qed.

End Helpers.

(** [%zu] prints the decimal digits of its argument read as a [size_t]:
    reading the text back gives that number. *)
Lemma read_print_zu (z : Z) : read_zu (print_zu z) = Some (to_size_t z).
Proof.
  unfold read_zu, print_zu.
  assert (Hnonnil : N.to_uint (Z.to_N (to_size_t z)) <> Decimal.Nil).
  { destruct (Z.to_N (to_size_t z)) as [|q]; [discriminate|].
    apply DecimalPos.Unsigned.to_uint_nonnil. }
  rewrite (NilZero.usu _ Hnonnil), DecimalN.Unsigned.of_to.
  rewrite Z2N.id; [reflexivity|].
  unfold to_size_t. apply Z.mod_pos_bound. reflexivity.
Qed.

Lemma to_size_t_le (z : Z) : 0 <= z -> to_size_t z <= z.
Proof. intros Hz. unfold to_size_t. apply Z.mod_le; [exact Hz|reflexivity]. Qed.

(** The compiler modelled from the specification consumes bytes of the
    text it is given, and the offset of a syntax error lies in that
    text. *)
Lemma length_substring_le (k : nat) (p : string) :
  (String.length (substring 0 k p) <= String.length p)%nat.
Proof.
  revert k. induction p as [|c p IH]; intros k.
  - destruct k; simpl; lia.
  - destruct k as [|k]; simpl; [lia|]. specialize (IH k). lia.
Qed.

Lemma name_run_le (field : string) :
  (Sample.name_run field <= String.length field)%nat.
Proof.
  induction field as [|c field IH]; [reflexivity|].
  simpl. destruct (Sample.is_name_char c); lia.
Qed.

Lemma sample_jpath_parse_within (p : string) (n : Z) :
  - Z.of_nat (String.length p) <= slen (Sample.fr_jpath_parse p n)
    <= Z.of_nat (String.length p).
Proof.
  unfold Sample.fr_jpath_parse. cbv zeta.
  pose proof (length_substring_le (Z.to_nat n) p) as Hsub.
  destruct (substring 0 (Z.to_nat n) p) as [|d rest]; [cbn [slen]; lia|].
  cbn [String.length] in Hsub.
  destruct (negb (Ascii.eqb d "$")); [cbn [slen]; lia|].
  destruct rest as [|dot field]; [cbn [slen]; lia|].
  cbn [String.length] in Hsub. pose proof (name_run_le field) as Hrun.
  destruct (negb (Ascii.eqb dot ".")); [cbn [slen]; lia|].
  destruct (Nat.eqb (Sample.name_run field) 0); [cbn [slen]; lia|].
  destruct (Nat.eqb (Sample.name_run field) (String.length field));
    cbn [slen]; lia.
Qed.

(** C7. [jpath_validate_xlat] never fails: for every compiler and every
    argument it reports [XLAT_ACTION_DONE] and appends exactly one box,
    the report, which is a decimal number, a colon and a text.  When the
    expression compiles, the number is the length the compiler returns
    and the text is the re-printed expression; on a syntax error the
    number is the offset (the negated return value) and the text is the
    message of the compiler.  The function prints the number as it gets
    it; with the compiler modelled from the specification the number is
    at most the length of the input. *)
Theorem jpath_validate_xlat_report (E : collaborators) (have_int64 : bool)
    (out : list fr_value_box_t) (path : fr_value_box_t)
    (rest : list fr_value_box_t) :
  (exists number text : string,
      jpath_validate_xlat E out (path :: rest)
        = Some (XLAT_ACTION_DONE, out ++ [vb_string (number ++ ":" ++ text)])
      /\ ((0 < slen (validated E path)
           /\ read_zu number = Some (to_size_t (slen (validated E path)))
           /\ text = fr_jpath_asprint E (head (validated E path)))
          \/ (slen (validated E path) <= 0
              /\ read_zu number = Some (to_size_t (- slen (validated E path)))
              /\ text = fr_strerror (validated E path))))
  /\ (exists (printed : Z) (number text : string),
        jpath_validate_xlat (Sample.services have_int64) out (path :: rest)
          = Some (XLAT_ACTION_DONE, out ++ [vb_string (number ++ ":" ++ text)])
        /\ read_zu number = Some printed
        /\ 0 <= printed <= Z.of_nat (String.length (vb_strvalue path))
        /\ ((0 < slen (validated (Sample.services have_int64) path)
             /\ printed = to_size_t (slen (validated (Sample.services have_int64) path)))
            \/ (slen (validated (Sample.services have_int64) path) <= 0
                /\ printed
                   = to_size_t (- slen (validated (Sample.services have_int64) path))))).
Proof.
  assert (Hreport : forall E' : collaborators,
    exists number text : string,
      jpath_validate_xlat E' out (path :: rest)
        = Some (XLAT_ACTION_DONE, out ++ [vb_string (number ++ ":" ++ text)])
      /\ ((0 < slen (validated E' path)
           /\ number = print_zu (slen (validated E' path))
           /\ text = fr_jpath_asprint E' (head (validated E' path)))
          \/ (slen (validated E' path) <= 0
              /\ number = print_zu (- slen (validated E' path))
              /\ text = fr_strerror (validated E' path)))).
  { intros E'. unfold jpath_validate_xlat.
    change (fr_jpath_parse E' (vb_strvalue path) (vb_length path))
      with (validated E' path).
    destruct (slen (validated E' path) <=? 0) eqn:Hs.
    - apply Z.leb_le in Hs. eexists _, _. split; [reflexivity|]. right.
      now repeat split.
    - apply Z.leb_gt in Hs. eexists _, _. split; [reflexivity|]. left.
      now repeat split. }
  split.
  - destruct (Hreport E) as (number & text & Hcall & [(Hs & -> & ->)|(Hs & -> & ->)]);
      eexists; eexists; (split; [exact Hcall|]); [left|right];
      (split; [exact Hs|]); (split; [apply read_print_zu|reflexivity]).
  - assert (Hin : - Z.of_nat (String.length (vb_strvalue path))
                  <= slen (validated (Sample.services have_int64) path)
                  <= Z.of_nat (String.length (vb_strvalue path)))
      by exact (sample_jpath_parse_within (vb_strvalue path) (vb_length path)).
    assert (Hsize : forall z, 0 <= z -> 0 <= to_size_t z <= z).
    { intros z Hz. split; [|now apply to_size_t_le].
      unfold to_size_t. apply Z.mod_pos_bound. reflexivity. }
    destruct (Hreport (Sample.services have_int64))
      as (number & text & Hcall & [(Hs & -> & ->)|(Hs & -> & ->)]).
    + exists (to_size_t (slen (validated (Sample.services have_int64) path))).
      eexists; eexists.
      split; [exact Hcall|]. split; [apply read_print_zu|].
      split; [|left; now split].
      pose proof (Hsize (slen (validated (Sample.services have_int64) path))). lia.
    + exists (to_size_t (- slen (validated (Sample.services have_int64) path))).
      eexists; eexists.
      split; [exact Hcall|]. split; [apply read_print_zu|].
      split; [|right; now split].
      pose proof (Hsize (- slen (validated (Sample.services have_int64) path))). lia.
Qed.

(** The reports for [$.msg] and for [$.ms g], whose fifth byte is no part
    of a field. *)
Lemma jpath_validate_xlat_reports_msg :
  jpath_validate_xlat (Sample.services true) [] [vb_string "$.msg"]
    = Some (XLAT_ACTION_DONE, [vb_string "5:$.msg"])
  /\ jpath_validate_xlat (Sample.services true) [] [vb_string "$.ms g"]
     = Some (XLAT_ACTION_DONE,
             [vb_string "4:Unexpected text after field specifier"]).
Proof. split; reflexivity. Qed.


(** ** Properties of the evaluator *)

Section Evaluator.

Context (E : collaborators).

(** The steps before the loop either fail or hand the root to the loop. *)
Lemma mod_map_proc_no_root (proc_inst : cache_chain E) (request : request_t)
    (json : list fr_value_box_t) (maps : map_list_t) :
  json_root E json = None ->
  mod_map_proc E proc_inst request json maps = Some (RLM_MODULE_FAIL, request).
Proof.
  unfold json_root, mod_map_proc. destruct json as [|json_head rest]; [reflexivity|].
  destruct (fr_value_box_list_concat_in_place E (json_head :: rest)) as [rc jh].
  destruct (rc <? 0); [reflexivity|].
  destruct (to_size_t (talloc_array_length (vb_strvalue jh) - 1) =? 0); [reflexivity|].
  intros ->. reflexivity.
Qed.

Lemma mod_map_proc_root (proc_inst : cache_chain E) (request : request_t)
    (json : list fr_value_box_t) (maps : map_list_t) (root : json_object E) :
  json_root E json = Some root ->
  mod_map_proc E proc_inst request json maps =
    match mod_map_proc_maps E root maps proc_inst request RLM_MODULE_UPDATED with
    | Some (rcode, request', _) => Some (rcode, request')
    | None => None
    end.
Proof.
  unfold json_root, mod_map_proc. destruct json as [|json_head rest]; [discriminate|].
  destruct (fr_value_box_list_concat_in_place E (json_head :: rest)) as [rc jh].
  destruct (rc <? 0); [discriminate|].
  destruct (to_size_t (talloc_array_length (vb_strvalue jh) - 1) =? 0); [discriminate|].
  intros ->. reflexivity.
Qed.

(** The loop hands back the result code it was started with, or FAIL. *)
Lemma mod_map_proc_maps_rcode (root : json_object E) (maps : map_list_t) :
  forall (cache : cache_chain E) (request : request_t) (rcode rc : rlm_rcode_t)
         (request' : request_t) (cache' : cache_chain E),
    mod_map_proc_maps E root maps cache request rcode = Some (rc, request', cache') ->
    rc = rcode \/ rc = RLM_MODULE_FAIL.
Proof.
  induction maps as [|m rest IH]; intros cache request rcode rc request' cache' H.
  - simpl in H. injection H as <- _ _. now left.
  - simpl in H.
    destruct (type (rhs m));
      try (destruct cache as [|entry next]; [discriminate|];
           destruct (map_to_request E request m _) as [ret r1];
           destruct (ret <? 0);
           [injection H as <- _ _; now right | exact (IH _ _ _ _ _ _ H)]);
      (destruct (tmpl_aexpand E request (rhs m)) as [ret to_parse];
       destruct (ret <? 0); [injection H as <- _ _; now right|];
       destruct (slen _ <=? 0); [injection H as <- _ _; now right|];
       destruct (map_to_request E request m _) as [ret1 r1];
       destruct (ret1 <? 0);
       [injection H as <- _ _; now right | exact (IH _ _ _ _ _ _ H)]).
Qed.

(** The evaluator never answers NOOP: its result code starts as UPDATED
    and is only ever replaced by FAIL. *)
Lemma mod_map_proc_never_noop (proc_inst : cache_chain E) (request : request_t)
    (json : list fr_value_box_t) (maps : map_list_t) (rc : rlm_rcode_t)
    (request' : request_t) :
  mod_map_proc E proc_inst request json maps = Some (rc, request') ->
  rc = RLM_MODULE_UPDATED \/ rc = RLM_MODULE_FAIL.
Proof.
  destruct (json_root E json) as [root|] eqn:Hroot.
  - rewrite (mod_map_proc_root _ _ _ _ _ Hroot).
    destruct (mod_map_proc_maps E root maps proc_inst request RLM_MODULE_UPDATED)
      as [[[rc0 r0] c0]|] eqn:Hrun; [|discriminate].
    intros H. injection H as <- _.
    exact (mod_map_proc_maps_rcode _ _ _ _ _ _ _ _ Hrun).
  - rewrite (mod_map_proc_no_root _ _ _ _ Hroot). intros H. injection H as <- _. now right.
Qed.

(** C6. When the concatenated source text is empty, [mod_map_proc] answers
    FAIL and leaves the request as it was; the answer does not depend on
    the document parser, which is not consulted. *)
Theorem mod_map_proc_empty_text (proc_inst : cache_chain E) (request : request_t)
    (json : list fr_value_box_t) (maps : map_list_t) :
  vb_strvalue (snd (fr_value_box_list_concat_in_place E json)) = EmptyString ->
  mod_map_proc E proc_inst request json maps = Some (RLM_MODULE_FAIL, request)
  /\ RLM_MODULE_FAIL <> RLM_MODULE_NOOP.
Proof.
  intros Hempty. split; [|discriminate].
  apply mod_map_proc_no_root. unfold json_root.
  destruct json as [|json_head rest]; [reflexivity|].
  destruct (fr_value_box_list_concat_in_place E (json_head :: rest)) as [rc jh].
  simpl in Hempty. rewrite Hempty.
  destruct (rc <? 0); reflexivity.
Qed.

End Evaluator.

(** ** Properties of the instantiation *)

Section Instantiation.

Context (E : collaborators).

(** C10. Without a JSON source template [mod_map_proc_instantiate]
    returns -1 and reports "Missing JSON source" on the section; the
    pre-allocated entry is all there is of the chain, and the mappings play
    no part in the answer. *)
Theorem instantiate_missing_source (cs : CONF_ITEM)
    (proc_inst : rlm_json_jpath_cache_t E) (maps : map_list_t) :
  mod_map_proc_instantiate E cs proc_inst None maps
    = (-1, [proc_inst], [(cs, "Missing JSON source")]).
Proof. reflexivity. Qed.

(** One turn of the instantiation loop, by cases. *)
Lemma instantiate_maps_uint64 (m : map_t) (rest : map_list_t)
    (done : cache_chain E) (cache : rlm_json_jpath_cache_t E) :
  uint64_unsupported E m = true ->
  instantiate_maps E (m :: rest) done cache
    = (-1, done ++ [cache], [(ci m, upgrade_diagnostic)]).
Proof.
  intros H. unfold uint64_unsupported in H. simpl. rewrite H. reflexivity.
Qed.

Lemma instantiate_maps_skip (m : map_t) (rest : map_list_t)
    (done : cache_chain E) (cache : rlm_json_jpath_cache_t E) :
  uint64_unsupported E m = false ->
  static_rhs m = false ->
  instantiate_maps E (m :: rest) done cache = instantiate_maps E rest done cache.
Proof.
  intros H Hs. unfold uint64_unsupported in H. unfold static_rhs in Hs.
  simpl. rewrite H. destruct (type (rhs m)); try reflexivity; discriminate.
Qed.

(** The status and the diagnostics do not depend on the chain built so
    far. *)
Lemma instantiate_maps_verdict (maps : map_list_t) :
  forall (done done' : cache_chain E) (cache cache' : rlm_json_jpath_cache_t E),
    fst (fst (instantiate_maps E maps done cache))
      = fst (fst (instantiate_maps E maps done' cache'))
    /\ snd (instantiate_maps E maps done cache)
      = snd (instantiate_maps E maps done' cache').
Proof.
  induction maps as [|m rest IH]; intros done done' cache cache'.
  - now split.
  - simpl.
    destruct (negb (HAVE_JSON_OBJECT_GET_INT64 E) && tmpl_is_attr (lhs m)
              && fr_type_eqb (da_type (tmpl_da (lhs m))) FR_TYPE_UINT64);
      [now split|].
    destruct (type (rhs m)); try apply IH.
    + destruct (slen _ <=? 0).
      * destruct (fr_canonicalize_error E _ _). now split.
      * destruct (map_list_next_exists rest); apply IH.
    + destruct (negb _); [now split|].
      destruct (slen _ <=? 0).
      * destruct (fr_canonicalize_error E _ _). now split.
      * destruct (map_list_next_exists rest); apply IH.
Qed.

(** One turn of the loop depends on the mapping alone: it is rejected, or
    compiled into the current entry, or passed over. *)
Lemma instantiate_maps_turn (m : map_t) :
  (exists log : cf_log,
      forall rest done cache, exists chain,
        instantiate_maps E (m :: rest) done cache = (-1, chain, log))
  \/ (static_rhs m = true /\ uint64_unsupported E m = false
      /\ forall rest done cache,
           instantiate_maps E (m :: rest) done cache =
             if map_list_next_exists rest
             then instantiate_maps E rest (done ++ [compiled_entry E m]) (talloc_zero_cache E)
             else instantiate_maps E rest done (compiled_entry E m))
  \/ (static_rhs m = false /\ uint64_unsupported E m = false
      /\ forall rest done cache,
           instantiate_maps E (m :: rest) done cache = instantiate_maps E rest done cache).
Proof.
  destruct (uint64_unsupported E m) eqn:Hu.
  { left. eexists. intros. eexists. now apply instantiate_maps_uint64. }
  destruct (static_rhs m) eqn:Hs.
  2:{ right. right. repeat split. intros. now apply instantiate_maps_skip. }
  unfold uint64_unsupported in Hu. unfold static_rhs in Hs.
  unfold compiled_entry. simpl. rewrite Hu.
  destruct (type (rhs m)); try discriminate.
  - destruct (slen (fr_jpath_parse E (name (rhs m)) (len (rhs m))) <=? 0).
    + left. destruct (fr_canonicalize_error E _ _). eexists. intros. eexists. reflexivity.
    + right. left. repeat split.
  - destruct (negb (fr_type_eqb (tmpl_value_type (rhs m)) FR_TYPE_STRING)).
    { left. eexists. intros. eexists. reflexivity. }
    destruct (slen _ <=? 0).
    + left. destruct (fr_canonicalize_error E _ _). eexists. intros. eexists. reflexivity.
    + right. left. repeat split.
Qed.

(** A sequence that holds a mapping the linked json-c cannot serve is
    never accepted. *)
Lemma instantiate_maps_uint64_anywhere (m : map_t) (post : map_list_t) :
  uint64_unsupported E m = true ->
  forall (pre : map_list_t) (done : cache_chain E) (cache : rlm_json_jpath_cache_t E),
    fst (fst (instantiate_maps E (pre ++ m :: post) done cache)) = -1.
Proof.
  intros Hu. induction pre as [|a pre IH]; intros done cache.
  - simpl app. now rewrite instantiate_maps_uint64.
  - change ((a :: pre) ++ m :: post) with (a :: (pre ++ m :: post)).
    destruct (instantiate_maps_turn a) as [[log H]|[(_ & _ & H)|(_ & _ & H)]].
    + destruct (H (pre ++ m :: post) done cache) as [chain ->]. reflexivity.
    + rewrite H. destruct (map_list_next_exists (pre ++ m :: post)); apply IH.
    + rewrite H. apply IH.
Qed.

(** When the mappings of [pre] are all accepted, the loop reaches what
    follows them. *)
Lemma instantiate_maps_prefix (suffix : map_list_t) :
  forall (pre : map_list_t) (done : cache_chain E) (cache : rlm_json_jpath_cache_t E),
    fst (fst (instantiate_maps E pre done cache)) = 0 ->
    exists done1 cache1,
      instantiate_maps E (pre ++ suffix) done cache
        = instantiate_maps E suffix done1 cache1.
Proof.
  induction pre as [|a pre IH]; intros done cache H0.
  - now exists done, cache.
  - change ((a :: pre) ++ suffix) with (a :: (pre ++ suffix)).
    destruct (instantiate_maps_turn a) as [[log H]|[(_ & _ & H)|(_ & _ & H)]].
    + destruct (H pre done cache) as [chain Hr]. rewrite Hr in H0. discriminate.
    + rewrite H in H0. rewrite H.
      assert (Hpre : forall d c, fst (fst (instantiate_maps E pre d c)) = 0).
      { intros d c.
        destruct (map_list_next_exists pre);
          rewrite <- H0; apply instantiate_maps_verdict. }
      destruct (map_list_next_exists (pre ++ suffix)); apply IH, Hpre.
    + rewrite H in H0. rewrite H. now apply IH.
Qed.

(** C8. With a json-c that lacks [json_object_get_int64], a mapping-set
    that holds a mapping to a 64-bit unsigned attribute is never
    instantiated: [mod_map_proc_instantiate] returns -1.  When the mappings
    before it are accepted, the one diagnostic is the request to upgrade
    json-c, reported on the item of that mapping. *)
Theorem uint64_mapping_rejected (cs : CONF_ITEM)
    (proc_inst : rlm_json_jpath_cache_t E) (src : option tmpl_t)
    (pre : map_list_t) (m : map_t) (post : map_list_t) :
  HAVE_JSON_OBJECT_GET_INT64 E = false ->
  tmpl_is_attr (lhs m) = true ->
  da_type (tmpl_da (lhs m)) = FR_TYPE_UINT64 ->
  fst (fst (mod_map_proc_instantiate E cs proc_inst src (pre ++ m :: post))) = -1
  /\ (fst (fst (mod_map_proc_instantiate E cs proc_inst src pre)) = 0 ->
      snd (mod_map_proc_instantiate E cs proc_inst src (pre ++ m :: post))
        = [(ci m, upgrade_diagnostic)]).
Proof.
  intros Hcodec Hattr Htype.
  assert (Hu : uint64_unsupported E m = true).
  { unfold uint64_unsupported. now rewrite Hcodec, Hattr, Htype. }
  unfold mod_map_proc_instantiate. destruct src as [src|].
  - split.
    + now apply instantiate_maps_uint64_anywhere.
    + intros H0.
      destruct (instantiate_maps_prefix (m :: post) pre [] proc_inst H0)
        as (done1 & cache1 & ->).
      now rewrite instantiate_maps_uint64.
  - split; [reflexivity|]. simpl. discriminate.
Qed.

(** The chain of an accepted sequence: the entries before the loop, one
    compiled entry per static mapping, and the spare entry. *)
Lemma instantiate_maps_chain (maps : map_list_t) :
  forall (done : cache_chain E) (cache : rlm_json_jpath_cache_t E)
         (chain : cache_chain E) (log : cf_log),
    instantiate_maps E maps done cache = (0, chain, log) ->
    chain = done ++ map (compiled_entry E) (filter static_rhs maps)
                 ++ spare_entry E cache maps.
Proof.
  induction maps as [|m rest IH]; intros done cache chain log Hrun.
  - simpl in Hrun. injection Hrun as <- _. reflexivity.
  - assert (Hends : forall a rest', ends_static (m :: a :: rest') = ends_static (a :: rest'))
      by reflexivity.
    assert (Hfilter : filter static_rhs (m :: rest)
                      = if static_rhs m then m :: filter static_rhs rest
                        else filter static_rhs rest) by reflexivity.
    destruct (instantiate_maps_turn m) as [[log' H]|[(Hs & _ & H)|(Hs & _ & H)]].
    + destruct (H rest done cache) as [chain' Hr]. rewrite Hr in Hrun. discriminate.
    + rewrite H in Hrun. unfold spare_entry. rewrite Hfilter, Hs.
      destruct rest as [|a rest'].
      * simpl in Hrun. injection Hrun as <- _. simpl. now rewrite Hs.
      * simpl map_list_next_exists in Hrun. cbv iota in Hrun.
        apply IH in Hrun. rewrite Hrun, Hends, <- app_assoc.
        unfold spare_entry.
        generalize (filter static_rhs (a :: rest')) (ends_static (a :: rest')).
        intros statics last_static. now destruct last_static, statics.
    + rewrite H in Hrun. apply IH in Hrun. rewrite Hrun.
      unfold spare_entry. rewrite Hfilter, Hs.
      destruct rest as [|a rest'].
      * simpl. now rewrite Hs.
      * now rewrite Hends.
Qed.

End Instantiation.

(** ** The walk of the evaluator over mappings and chain *)

Section Walk.

Context (E : collaborators).

(** One turn of the evaluator loop on a static mapping. *)
Lemma mod_map_proc_maps_static (root : json_object E) (m : map_t)
    (rest : map_list_t) (cache : cache_chain E) (request : request_t)
    (rcode : rlm_rcode_t) :
  static_rhs m = true ->
  mod_map_proc_maps E root (m :: rest) cache request rcode =
    match cache with
    | [] => None
    | entry :: next =>
        let to_eval := {| to_eval_jpath := jpath entry; root := root |} in
        let '(ret, request') :=
          map_to_request E request m (_json_map_proc_get_value E to_eval) in
        if ret <? 0 then Some (RLM_MODULE_FAIL, request', cache)
        else mod_map_proc_maps E root rest next request' rcode
    end.
Proof.
  unfold static_rhs. simpl. destruct (type (rhs m)); try discriminate; reflexivity.
Qed.

(** One turn on any other mapping. *)
Lemma mod_map_proc_maps_dynamic (root : json_object E) (m : map_t)
    (rest : map_list_t) (cache : cache_chain E) (request : request_t)
    (rcode : rlm_rcode_t) :
  static_rhs m = false ->
  mod_map_proc_maps E root (m :: rest) cache request rcode =
    let '(ret, to_parse) := tmpl_aexpand E request (rhs m) in
    if ret <? 0 then Some (RLM_MODULE_FAIL, request, cache) else
    let r := fr_jpath_parse E to_parse (talloc_array_length to_parse - 1) in
    if slen r <=? 0 then Some (RLM_MODULE_FAIL, request, cache) else
    let to_eval := {| to_eval_jpath := head r; root := root |} in
    let '(ret, request') :=
      map_to_request E request m (_json_map_proc_get_value E to_eval) in
    if ret <? 0 then Some (RLM_MODULE_FAIL, request', cache)
    else mod_map_proc_maps E root rest cache request' rcode.
Proof.
  unfold static_rhs. simpl. destruct (type (rhs m)); try discriminate; reflexivity.
Qed.

(** A chain with an entry for every static mapping is never read past its
    end, and a walk that does not abort moves the cursor by one entry per
    static mapping. *)
Lemma mod_map_proc_maps_cursor (root : json_object E) (maps : map_list_t) :
  forall (cache : cache_chain E) (request : request_t),
    (List.length (filter static_rhs maps) <= List.length cache)%nat ->
    exists rc request' cursor,
      mod_map_proc_maps E root maps cache request RLM_MODULE_UPDATED
        = Some (rc, request', cursor)
      /\ (rc = RLM_MODULE_UPDATED ->
          cursor = skipn (List.length (filter static_rhs maps)) cache).
Proof.
  induction maps as [|m rest IH]; intros cache request Hlen.
  - exists RLM_MODULE_UPDATED, request, cache. now split.
  - assert (Hfilter : filter static_rhs (m :: rest)
                      = if static_rhs m then m :: filter static_rhs rest
                        else filter static_rhs rest) by reflexivity.
    rewrite Hfilter in *. destruct (static_rhs m) eqn:Hs.
    + rewrite mod_map_proc_maps_static by exact Hs.
      destruct cache as [|entry next]; [simpl in Hlen; lia|].
      cbv zeta. destruct (map_to_request E request m _) as [ret r1].
      destruct (ret <? 0).
      * eexists _, _, _. split; [reflexivity|discriminate].
      * simpl in Hlen. destruct (IH next r1) as (rc & r2 & c & Hrun & Hc); [lia|].
        exists rc, r2, c. split; [exact Hrun|exact Hc].
    + rewrite mod_map_proc_maps_dynamic by exact Hs.
      destruct (tmpl_aexpand E request (rhs m)) as [ret to_parse].
      destruct (ret <? 0); [eexists _, _, _; split; [reflexivity|discriminate]|].
      cbv zeta. destruct (slen _ <=? 0);
        [eexists _, _, _; split; [reflexivity|discriminate]|].
      destruct (map_to_request E request m _) as [ret1 r1].
      destruct (ret1 <? 0); [eexists _, _, _; split; [reflexivity|discriminate]|].
      exact (IH cache r1 Hlen).
Qed.

(** A walk over [pre] that did not abort is continued by the walk over
    what follows. *)
Lemma mod_map_proc_maps_app (root : json_object E) (suffix : map_list_t) :
  forall (pre : map_list_t) (cache : cache_chain E) (request : request_t)
         (request1 : request_t) (cursor : cache_chain E),
    mod_map_proc_maps E root pre cache request RLM_MODULE_UPDATED
      = Some (RLM_MODULE_UPDATED, request1, cursor) ->
    mod_map_proc_maps E root (pre ++ suffix) cache request RLM_MODULE_UPDATED
      = mod_map_proc_maps E root suffix cursor request1 RLM_MODULE_UPDATED.
Proof.
  induction pre as [|m pre IH]; intros cache request request1 cursor Hrun.
  - simpl in Hrun. injection Hrun as <- <-. reflexivity.
  - change ((m :: pre) ++ suffix) with (m :: (pre ++ suffix)).
    destruct (static_rhs m) eqn:Hs.
    + rewrite mod_map_proc_maps_static in * by exact Hs.
      destruct cache as [|entry next]; [discriminate|].
      cbv zeta in *. destruct (map_to_request E request m _) as [ret r1].
      destruct (ret <? 0); [discriminate|]. now apply IH.
    + rewrite mod_map_proc_maps_dynamic in * by exact Hs.
      destruct (tmpl_aexpand E request (rhs m)) as [ret to_parse].
      destruct (ret <? 0); [discriminate|].
      cbv zeta in *. destruct (slen _ <=? 0); [discriminate|].
      destruct (map_to_request E request m _) as [ret1 r1].
      destruct (ret1 <? 0); [discriminate|]. now apply IH.
Qed.

End Walk.

(** ** Cache and mappings in lock-step; aborts of the evaluator *)

Section LockStep.

Context (E : collaborators).

Lemma skipn_compiled (l spare : cache_chain E) :
  skipn (List.length l) (l ++ spare) = spare.
Proof. induction l as [|x l IH]; [reflexivity|exact IH]. Qed.

Lemma filter_static_prefix (pre post : map_list_t) :
  (List.length (filter static_rhs pre)
   <= List.length (filter static_rhs (pre ++ post)))%nat.
Proof. rewrite filter_app, length_app. lia. Qed.

(** C3, as the code has it.  The chain of an accepted mapping sequence is
    one compiled entry per static or literal mapping, in order, followed
    by the spare entry (present unless the last mapping is static or
    literal).  Walking any initial part of the sequence over that chain
    never reads through a NULL cursor and, unless the evaluation aborts,
    leaves the cursor one entry further per static or literal mapping and
    none per other mapping; after the whole sequence the cursor is at the
    spare entry or at the end of the chain. *)
Theorem cache_lock_step (cs : CONF_ITEM) (proc_inst : rlm_json_jpath_cache_t E)
    (src : option tmpl_t) (maps : map_list_t) (chain : cache_chain E)
    (log : cf_log) :
  mod_map_proc_instantiate E cs proc_inst src maps = (0, chain, log) ->
  chain = map (compiled_entry E) (filter static_rhs maps)
            ++ spare_entry E proc_inst maps
  /\ (forall (root : json_object E) (request : request_t) (pre post : map_list_t),
        maps = pre ++ post ->
        exists rc request' cursor,
          mod_map_proc_maps E root pre chain request RLM_MODULE_UPDATED
            = Some (rc, request', cursor)
          /\ (rc = RLM_MODULE_UPDATED ->
              cursor = skipn (List.length (filter static_rhs pre)) chain))
  /\ (forall (root : json_object E) (request : request_t),
        exists rc request' cursor,
          mod_map_proc_maps E root maps chain request RLM_MODULE_UPDATED
            = Some (rc, request', cursor)
          /\ (rc = RLM_MODULE_UPDATED -> cursor = spare_entry E proc_inst maps)).
Proof.
  unfold mod_map_proc_instantiate. destruct src as [src|]; [|discriminate].
  intros Hrun. apply instantiate_maps_chain in Hrun. simpl in Hrun.
  assert (Hlen : (List.length (filter static_rhs maps) <= List.length chain)%nat).
  { rewrite Hrun, length_app, length_map. lia. }
  split; [exact Hrun|]. split.
  - intros root request pre post ->.
    apply mod_map_proc_maps_cursor.
    pose proof (filter_static_prefix pre post). lia.
  - intros root request.
    destruct (mod_map_proc_maps_cursor E root maps chain request Hlen)
      as (rc & r & c & Hwalk & Hc).
    exists rc, r, c. split; [exact Hwalk|].
    intros Hrc. rewrite (Hc Hrc). rewrite Hrun at 1.
    rewrite <- (length_map (compiled_entry E)). apply skipn_compiled.
Qed.

(** The callback hands over no pair when it fails. *)
Lemma steal_values_failure (m : map_t) (values : list fr_value_box_t) :
  forall out : fr_pair_list_t,
    fst (steal_values E m values out) < 0 -> snd (steal_values E m values out) = [].
Proof.
  induction values as [|v rest IH]; intros out H.
  - simpl in H. lia.
  - simpl in *. destruct (fr_value_box_steal E v) as [rc stolen].
    destruct (rc <? 0); [reflexivity|]. now apply IH.
Qed.

Lemma get_value_failure (to_eval : rlm_json_jpath_to_eval_t E)
    (request : request_t) (m : map_t) :
  fst (_json_map_proc_get_value E to_eval request m) < 0 ->
  snd (_json_map_proc_get_value E to_eval request m) = [].
Proof.
  unfold _json_map_proc_get_value.
  destruct (fr_jpath_evaluate_leaf E request _ _ _ _) as [ret values].
  destruct (ret <? 0); [reflexivity|]. destruct (ret =? 0); [reflexivity|].
  apply steal_values_failure.
Qed.

(** The callback fails when the evaluator fails or when one of the
    matched leaves cannot be moved into a pair. *)
Lemma steal_values_status (m : map_t) (values : list fr_value_box_t) :
  forall out : fr_pair_list_t,
    fst (steal_values E m values out) < 0
    <-> exists value, In value values /\ fst (fr_value_box_steal E value) < 0.
Proof.
  induction values as [|v rest IH]; intros out.
  - simpl. split; [lia|]. intros (value & [] & _).
  - simpl. destruct (fr_value_box_steal E v) as [rc stolen] eqn:Hv.
    destruct (rc <? 0) eqn:Hrc.
    + split; [|simpl; lia]. intros _. exists v. split; [now left|].
      rewrite Hv. simpl. now apply Z.ltb_lt.
    + rewrite IH. split.
      * intros (value & Hin & Hlt). exists value. split; [now right|exact Hlt].
      * intros (value & [<-|Hin] & Hlt).
        -- rewrite Hv in Hlt. simpl in Hlt. apply Z.ltb_ge in Hrc. lia.
        -- now exists value.
Qed.

Lemma get_value_failure_cause (to_eval : rlm_json_jpath_to_eval_t E)
    (request : request_t) (m : map_t) (ret : Z) (values : list fr_value_box_t) :
  fr_jpath_evaluate_leaf E request (da_type (tmpl_da (lhs m))) (tmpl_da (lhs m))
    (root to_eval) (to_eval_jpath to_eval) = (ret, values) ->
  fst (_json_map_proc_get_value E to_eval request m) < 0
  <-> ret < 0
      \/ (0 < ret /\ exists value,
             In value values /\ fst (fr_value_box_steal E value) < 0).
Proof.
  intros Heval. unfold _json_map_proc_get_value. rewrite Heval.
  destruct (ret <? 0) eqn:Hneg.
  - apply Z.ltb_lt in Hneg. simpl. split; [now left|lia].
  - apply Z.ltb_ge in Hneg. destruct (ret =? 0) eqn:Hzero.
    + apply Z.eqb_eq in Hzero. simpl. split; [lia|]. intros [H|[H _]]; lia.
    + apply Z.eqb_neq in Hzero. rewrite steal_values_status. split.
      * intros H. right. split; [lia|exact H].
      * intros [H|[_ H]]; [lia|exact H].
Qed.

(** C2, as the code has it.  Let the sink report the failure of a
    callback and deliver nothing for it.  When the mappings of [pre] are
    evaluated without abort and a leaf of the next mapping [m] cannot be
    turned into a value of its target type, the callback of [m] hands over
    no pair, the whole evaluation answers FAIL and [post] is not
    evaluated; the request is the one the mappings of [pre] left, with
    their values delivered. *)
Theorem coercion_failure_aborts (proc_inst : cache_chain E)
    (request : request_t) (json : list fr_value_box_t)
    (pre : map_list_t) (m : map_t) (post : map_list_t)
    (root : json_object E) (request1 : request_t) (cursor : cache_chain E)
    (expression : option (fr_jpath_node_t E)) :
  (forall req mp func,
      fst (func req mp) < 0 ->
      fst (map_to_request E req mp func) < 0
      /\ snd (map_to_request E req mp func) = req) ->
  json_root E json = Some root ->
  mod_map_proc_maps E root pre proc_inst request RLM_MODULE_UPDATED
    = Some (RLM_MODULE_UPDATED, request1, cursor) ->
  map_expression E request1 m cursor = Some expression ->
  fst (_json_map_proc_get_value E
         {| to_eval_jpath := expression; root := root |} request1 m) < 0 ->
  snd (_json_map_proc_get_value E
         {| to_eval_jpath := expression; root := root |} request1 m) = []
  /\ mod_map_proc E proc_inst request json (pre ++ m :: post)
     = Some (RLM_MODULE_FAIL, request1).
Proof.
  intros Hsink Hroot Hpre Hexpr Hfail.
  split; [now apply get_value_failure|].
  rewrite (mod_map_proc_root E _ _ _ _ _ Hroot).
  rewrite (mod_map_proc_maps_app E root (m :: post) pre _ _ _ _ Hpre).
  destruct (Hsink request1 m _ Hfail) as [Hret Hreq].
  unfold map_expression in Hexpr. destruct (static_rhs m) eqn:Hs.
  - rewrite mod_map_proc_maps_static by exact Hs.
    destruct cursor as [|entry next]; [discriminate|].
    injection Hexpr as <-. cbv zeta.
    destruct (map_to_request E request1 m _) as [ret r2]. simpl in Hret, Hreq.
    apply Z.ltb_lt in Hret. rewrite Hret, Hreq. reflexivity.
  - rewrite mod_map_proc_maps_dynamic by exact Hs.
    destruct (tmpl_aexpand E request1 (rhs m)) as [ret to_parse].
    destruct (ret <? 0); [discriminate|].
    cbv zeta in *. destruct (slen _ <=? 0); [discriminate|].
    injection Hexpr as <-.
    destruct (map_to_request E request1 m _) as [ret1 r2]. simpl in Hret, Hreq.
    apply Z.ltb_lt in Hret. rewrite Hret, Hreq. reflexivity.
Qed.

(** C5, as the code has it.  A mapping whose right-hand side is neither
    static text nor literal data, of whatever kind, gets no cache entry at
    instantiation: it is passed over without diagnostic, unless its target
    is a 64-bit attribute the linked json-c cannot serve, which rejects
    the set.  At evaluation it is handled as a dynamic template and never
    touches the chain: the right-hand side is expanded and the expansion
    compiled, the evaluation answering FAIL when either fails; otherwise
    the mapping is evaluated, [map_to_request] being called with the
    expression just compiled, and the evaluation answers FAIL with the
    request that call left when it fails, and goes on to the next mapping
    with that request and the same cursor when it succeeds. *)
Theorem non_static_mapping_evaluated (root : json_object E) (m : map_t)
    (rest : map_list_t) (cache : cache_chain E) (request : request_t)
    (done : cache_chain E) (entry : rlm_json_jpath_cache_t E) :
  static_rhs m = false ->
  instantiate_maps E (m :: rest) done entry
    = (if uint64_unsupported E m
       then (-1, done ++ [entry], [(ci m, upgrade_diagnostic)])
       else instantiate_maps E rest done entry)
  /\ (exists rc request',
        mod_map_proc_maps E root [m] cache request RLM_MODULE_UPDATED
          = Some (rc, request', cache))
  /\ (fst (tmpl_aexpand E request (rhs m)) < 0 ->
      mod_map_proc_maps E root (m :: rest) cache request RLM_MODULE_UPDATED
        = Some (RLM_MODULE_FAIL, request, cache))
  /\ (slen (expansion_compiled E request m) <= 0 ->
      mod_map_proc_maps E root (m :: rest) cache request RLM_MODULE_UPDATED
        = Some (RLM_MODULE_FAIL, request, cache))
  /\ (0 <= fst (tmpl_aexpand E request (rhs m)) ->
      0 < slen (expansion_compiled E request m) ->
      mod_map_proc_maps E root (m :: rest) cache request RLM_MODULE_UPDATED
        = (if fst (dynamic_delivery E root request m) <? 0
           then Some (RLM_MODULE_FAIL, snd (dynamic_delivery E root request m), cache)
           else mod_map_proc_maps E root rest cache
                  (snd (dynamic_delivery E root request m)) RLM_MODULE_UPDATED)).
Proof.
  intros Hs. unfold dynamic_delivery, expansion_compiled.
  split; [|split; [|split; [|split]]].
  - destruct (uint64_unsupported E m) eqn:Hu.
    + now apply instantiate_maps_uint64.
    + now apply instantiate_maps_skip.
  - rewrite mod_map_proc_maps_dynamic by exact Hs.
    destruct (tmpl_aexpand E request (rhs m)) as [ret to_parse].
    destruct (ret <? 0); [now eexists _, _|].
    cbv zeta. destruct (slen _ <=? 0); [now eexists _, _|].
    destruct (map_to_request E request m _) as [ret1 r1].
    destruct (ret1 <? 0); now eexists _, _.
  - intros Hexp. rewrite mod_map_proc_maps_dynamic by exact Hs.
    destruct (tmpl_aexpand E request (rhs m)) as [ret to_parse].
    simpl in Hexp. apply Z.ltb_lt in Hexp. now rewrite Hexp.
  - intros Hparse. rewrite mod_map_proc_maps_dynamic by exact Hs.
    destruct (tmpl_aexpand E request (rhs m)) as [ret to_parse].
    simpl in Hparse. destruct (ret <? 0); [reflexivity|].
    cbv zeta. apply Z.leb_le in Hparse. now rewrite Hparse.
  - intros Hexp Hparse. rewrite mod_map_proc_maps_dynamic by exact Hs.
    destruct (tmpl_aexpand E request (rhs m)) as [ret to_parse].
    simpl in Hexp, Hparse |- *.
    replace (ret <? 0) with false by (symmetry; apply Z.ltb_ge; exact Hexp).
    replace (slen (fr_jpath_parse E to_parse (talloc_array_length to_parse - 1)) <=? 0)
      with false by (symmetry; apply Z.leb_gt; exact Hparse).
    now destruct (map_to_request E request m _) as [ret1 r1].
Qed.

End LockStep.

(** ** The document builder *)

Section Builder.

Context (E : collaborators).

Lemma da_eqb_refl (d : fr_dict_attr_t) : da_eqb d d = true.
Proof.
  unfold da_eqb. rewrite !Z.eqb_refl, String.eqb_refl.
  now destruct (da_type d).
Qed.

(** The inner loop is a filter on the attribute. *)
Lemma fr_pair_delete_da_filter (vp : fr_pair_t) (json_vps : fr_pair_list_t) :
  fr_pair_delete_da vp json_vps
    = filter (fun vpm => negb (da_eqb (da vp) (da vpm))) json_vps.
Proof.
  induction json_vps as [|vpm next IH]; [reflexivity|].
  simpl. rewrite IH. now destruct (da_eqb (da vp) (da vpm)).
Qed.

Lemma kept_by_exclusion_delete (vp : fr_pair_t) (vps json_vps : fr_pair_list_t) :
  kept_by_exclusion vps (fr_pair_delete_da vp json_vps)
    = kept_by_exclusion (vp :: vps) json_vps.
Proof.
  unfold kept_by_exclusion.
  induction json_vps as [|vpm next IH]; [reflexivity|].
  simpl. destruct (da_eqb (da vp) (da vpm)); simpl.
  - exact IH.
  - rewrite IH. reflexivity.
Qed.

(** An exclusion keeps exactly the pairs whose attribute is not an
    attribute of the group. *)
Lemma json_encode_negate_kept (vps : fr_pair_list_t) :
  forall json_vps : fr_pair_list_t,
    json_encode_negate vps json_vps = kept_by_exclusion vps json_vps.
Proof.
  induction vps as [|vp rest IH]; intros json_vps.
  - unfold kept_by_exclusion. simpl.
    induction json_vps as [|vpm next IHn]; [reflexivity|]. simpl. now rewrite <- IHn.
  - simpl. rewrite IH. apply kept_by_exclusion_delete.
Qed.

Lemma kept_by_exclusion_incl (vps : fr_pair_list_t) :
  forall sub : fr_pair_list_t, incl sub vps -> kept_by_exclusion vps sub = [].
Proof.
  unfold kept_by_exclusion.
  induction sub as [|vpm next IH]; intros Hincl; [reflexivity|].
  simpl.
  assert (Hin : existsb (fun vp => da_eqb (da vp) (da vpm)) vps = true).
  { apply existsb_exists. exists vpm. split; [apply Hincl; now left|apply da_eqb_refl]. }
  rewrite Hin. simpl. apply IH. intros x Hx. apply Hincl. now right.
Qed.

(** Excluding a group right after including it removes the group and
    whatever else carried one of its attributes. *)
Lemma json_encode_negate_after_include (vps json_vps : fr_pair_list_t) :
  json_encode_negate vps (json_vps ++ vps) = json_encode_negate vps json_vps.
Proof.
  rewrite !json_encode_negate_kept. unfold kept_by_exclusion.
  rewrite filter_app.
  change (filter _ vps) with (kept_by_exclusion vps vps).
  rewrite kept_by_exclusion_incl by apply incl_refl. apply app_nil_r.
Qed.

(** The model of the loop has fuel for every input: each turn consumes at
    least one byte. *)
Lemma fr_sbuff_adv_past_whitespace_length (sbuff : fr_sbuff_t) :
  (List.length (fr_sbuff_adv_past_whitespace sbuff) <= List.length sbuff)%nat.
Proof.
  induction sbuff as [|c rest IH]; [reflexivity|].
  simpl. destruct (sbuff_char_whitespace c); simpl; lia.
Qed.

Lemma json_encode_loop_fuel (request : request_t) :
  forall (fuel : nat) (sbuff : fr_sbuff_t) (json_vps : fr_pair_list_t),
    (List.length sbuff <= fuel)%nat ->
    json_encode_loop E fuel request sbuff json_vps <> ENCODE_FUEL.
Proof.
  induction fuel as [|fuel IH]; intros sbuff json_vps Hlen.
  - destruct sbuff; [discriminate|simpl in Hlen; lia].
  - destruct sbuff as [|c rest]; [discriminate|].
    simpl json_encode_loop.
    destruct (Ascii.eqb c (ascii_of_nat 33)).
    + destruct (tmpl_afrom_attr_substr E (dict request) rest json_arg_parse_rules)
        as [n vpt].
      destruct (n <=? 0); [discriminate|].
      destruct (tmpl_copy_pairs E request vpt) as [rc vps].
      destruct (rc <? -1); [discriminate|].
      apply IH.
      pose proof (fr_sbuff_adv_past_whitespace_length (fr_sbuff_advance rest n)).
      unfold fr_sbuff_advance in *. pose proof (length_skipn (Z.to_nat n) rest).
      simpl in Hlen. lia.
    + destruct (tmpl_afrom_attr_substr E (dict request) (c :: rest) json_arg_parse_rules)
        as [n vpt].
      destruct (n <=? 0) eqn:Hn; [discriminate|].
      destruct (tmpl_copy_pairs E request vpt) as [rc vps].
      destruct (rc <? -1); [discriminate|].
      apply IH. apply Z.leb_gt in Hn.
      pose proof (fr_sbuff_adv_past_whitespace_length (fr_sbuff_advance (c :: rest) n)).
      unfold fr_sbuff_advance in *. pose proof (length_skipn (Z.to_nat n) (c :: rest)).
      simpl in Hlen. simpl List.length in *. lia.
Qed.

(** [json_encode_xlat] answers on every non-empty argument list. *)
Lemma json_encode_xlat_total (format : fr_json_format_t E) (request : request_t)
    (out : list fr_value_box_t) (in_head : fr_value_box_t)
    (rest : list fr_value_box_t) :
  json_encode_xlat E format request out (in_head :: rest) <> None.
Proof.
  unfold json_encode_xlat.
  pose proof (json_encode_loop_fuel request _
    (fr_sbuff_adv_past_whitespace (FR_SBUFF_IN (vb_strvalue in_head) (vb_length in_head)))
    [] (le_n _)) as Hfuel.
  destruct (json_encode_loop E _ request _ []); [|discriminate|contradiction].
  destruct (fr_json_afrom_pair_list E json_vps format); discriminate.
Qed.

Lemma skipn_reference (l rest : list ascii) :
  skipn (List.length l) (l ++ rest) = rest.
Proof. induction l as [|c l IH]; [reflexivity|exact IH]. Qed.

Lemma starts_reference_not_blank (a rest : list ascii) :
  starts_reference a ->
  fr_sbuff_adv_past_whitespace (a ++ rest) = a ++ rest.
Proof.
  destruct a as [|c l]; [contradiction|]. intros [Hws _].
  simpl. now rewrite Hws.
Qed.

Section Tokens.

(** A reference [a] that resolves to the template [vpt], whose group in
    the request is [A]. *)
Variables (request : request_t) (a : list ascii) (vpt : tmpl_t)
          (rc : Z) (A : fr_pair_list_t).

Hypothesis a_starts : starts_reference a.
Hypothesis a_resolves :
  forall rest : list ascii, ends_reference rest ->
    tmpl_afrom_attr_substr E (dict request) (a ++ rest) json_arg_parse_rules
      = (Z.of_nat (List.length a), Some vpt).
Hypothesis a_group : tmpl_copy_pairs E request (Some vpt) = (rc, A).
Hypothesis a_copied : -1 <= rc.

Lemma a_consumed (rest : list ascii) :
  fr_sbuff_advance (a ++ rest) (Z.of_nat (List.length a)) = rest.
Proof.
  unfold fr_sbuff_advance. rewrite Nat2Z.id. apply skipn_reference.
Qed.

Lemma a_not_blank (rest : list ascii) :
  fr_sbuff_adv_past_whitespace (a ++ rest) = a ++ rest.
Proof. now apply starts_reference_not_blank. Qed.

(** A turn of the loop on an inclusion token. *)
Lemma json_encode_loop_include (fuel : nat) (rest : list ascii)
    (json_vps : fr_pair_list_t) :
  ends_reference rest ->
  json_encode_loop E (S fuel) request (a ++ rest) json_vps
    = json_encode_loop E fuel request (fr_sbuff_adv_past_whitespace rest)
        (json_vps ++ A).
Proof.
  intros Hrest. pose proof (a_resolves rest Hrest) as Htok.
  pose proof (a_consumed rest) as Hadv.
  destruct a as [|c l] eqn:Ha; [contradiction|].
  destruct a_starts as [_ Hbang].
  change ((c :: l) ++ rest) with (c :: (l ++ rest)) in *.
  simpl json_encode_loop. change (ascii_of_nat 33) with bang. rewrite Hbang.
  rewrite Htok.
  replace (Z.of_nat (List.length (c :: l)) <=? 0) with false
    by (symmetry; apply Z.leb_gt; simpl List.length; lia).
  rewrite Hadv, a_group.
  replace (rc <? -1) with false by (symmetry; apply Z.ltb_ge; lia).
  reflexivity.
Qed.

(** A turn of the loop on an exclusion token. *)
Lemma json_encode_loop_exclude (fuel : nat) (rest : list ascii)
    (json_vps : fr_pair_list_t) :
  ends_reference rest ->
  json_encode_loop E (S fuel) request (bang :: a ++ rest) json_vps
    = json_encode_loop E fuel request (fr_sbuff_adv_past_whitespace rest)
        (json_encode_negate A json_vps).
Proof.
  intros Hrest. pose proof (a_resolves rest Hrest) as Htok.
  pose proof (a_consumed rest) as Hadv.
  simpl json_encode_loop. rewrite Htok.
  replace (Z.of_nat (List.length a) <=? 0) with false.
  2:{ symmetry; apply Z.leb_gt. destruct a; [contradiction|simpl List.length; lia]. }
  rewrite Hadv, a_group.
  replace (rc <? -1) with false by (symmetry; apply Z.ltb_ge; lia).
  reflexivity.
Qed.

Lemma json_encode_loop_end (fuel : nat) (json_vps : fr_pair_list_t) :
  json_encode_loop E fuel request [] json_vps = ENCODE_LIST json_vps.
Proof. now destruct fuel. Qed.

Lemma ends_reference_space (rest : list ascii) : ends_reference (space :: rest).
Proof. simpl. right. now left. Qed.

Lemma ends_reference_bang (rest : list ascii) : ends_reference (bang :: rest).
Proof. simpl. right. right. now left. Qed.

(** The token sequences [a !a] and [a !a a], as the loop sees them. *)
Lemma json_encode_loop_include_exclude (fuel : nat) (json_vps : fr_pair_list_t) :
  json_encode_loop E (S (S fuel)) request (a ++ space :: bang :: a) json_vps
    = ENCODE_LIST (json_encode_negate A json_vps).
Proof.
  rewrite json_encode_loop_include by apply ends_reference_space.
  change (fr_sbuff_adv_past_whitespace (space :: bang :: a)) with (bang :: a).
  rewrite <- (app_nil_r a) at 1.
  rewrite json_encode_loop_exclude by exact I.
  rewrite json_encode_negate_after_include. apply json_encode_loop_end.
Qed.

Lemma json_encode_loop_include_exclude_include (fuel : nat)
    (json_vps : fr_pair_list_t) :
  json_encode_loop E (S (S (S fuel))) request
      (a ++ space :: bang :: a ++ space :: a) json_vps
    = ENCODE_LIST (json_encode_negate A json_vps ++ A).
Proof.
  rewrite json_encode_loop_include by apply ends_reference_space.
  change (fr_sbuff_adv_past_whitespace (space :: bang :: a ++ space :: a))
    with (bang :: a ++ space :: a).
  rewrite json_encode_loop_exclude by apply ends_reference_space.
  change (fr_sbuff_adv_past_whitespace (space :: a))
    with (fr_sbuff_adv_past_whitespace a).
  pose proof (a_not_blank []) as Hblank. rewrite app_nil_r in Hblank.
  rewrite Hblank. rewrite <- (app_nil_r a) at 1.
  rewrite json_encode_loop_include by exact I.
  rewrite json_encode_negate_after_include. apply json_encode_loop_end.
Qed.

End Tokens.

Lemma json_encode_negate_nil (vps : fr_pair_list_t) : json_encode_negate vps [] = [].
Proof. now rewrite json_encode_negate_kept. Qed.

Lemma length_string_of_list_ascii (l : list ascii) :
  String.length (string_of_list_ascii l) = List.length l.
Proof. induction l as [|c l IH]; [reflexivity|simpl; now rewrite IH]. Qed.

(** The buffer [json_encode_xlat] scans for the argument [text]. *)
Lemma FR_SBUFF_IN_text (text : list ascii) :
  FR_SBUFF_IN (vb_strvalue (vb_string (string_of_list_ascii text)))
              (vb_length (vb_string (string_of_list_ascii text))) = text.
Proof.
  unfold FR_SBUFF_IN, vb_length. simpl vb_strvalue.
  rewrite Nat2Z.id, length_string_of_list_ascii, list_ascii_of_string_of_list_ascii.
  apply firstn_all.
Qed.

(** Attribute identity is equality. *)
Lemma fr_type_eqb_eq (t u : fr_type_t) : fr_type_eqb t u = true <-> t = u.
Proof. destruct t, u; simpl; split; congruence. Qed.

Lemma da_eqb_eq (d d' : fr_dict_attr_t) : da_eqb d d' = true <-> d = d'.
Proof.
  split; [|intros ->; apply da_eqb_refl].
  unfold da_eqb. intros H.
  apply andb_prop in H. destruct H as [H Htype].
  apply andb_prop in H. destruct H as [H Hname].
  apply andb_prop in H. destruct H as [Hparent Hattr].
  apply Z.eqb_eq in Hparent, Hattr. apply String.eqb_eq in Hname.
  apply fr_type_eqb_eq in Htype.
  destruct d, d'; simpl in *. congruence.
Qed.

(** What an exclusion keeps, pair by pair. *)
Lemma kept_by_exclusion_In (vps json_vps : fr_pair_list_t) (vpm : fr_pair_t) :
  In vpm (kept_by_exclusion vps json_vps)
  <-> In vpm json_vps /\ ~ (exists vp, In vp vps /\ da vp = da vpm).
Proof.
  unfold kept_by_exclusion. rewrite filter_In, negb_true_iff.
  split; intros [Hin Hkeep]; (split; [exact Hin|]).
  - intros (vp & Hvp & Hda).
    assert (Hex : existsb (fun vp => da_eqb (da vp) (da vpm)) vps = true).
    { apply existsb_exists. exists vp. split; [exact Hvp|now apply da_eqb_eq]. }
    congruence.
  - destruct (existsb (fun vp => da_eqb (da vp) (da vpm)) vps) eqn:Hex; [|reflexivity].
    exfalso. apply Hkeep. apply existsb_exists in Hex.
    destruct Hex as (vp & Hvp & Hda). exists vp. split; [exact Hvp|now apply da_eqb_eq].
Qed.

Lemma kept_by_exclusion_app (vps l1 l2 : fr_pair_list_t) :
  kept_by_exclusion vps (l1 ++ l2)
    = kept_by_exclusion vps l1 ++ kept_by_exclusion vps l2.
Proof. unfold kept_by_exclusion. apply filter_app. Qed.

(** C4. An exclusion token removes from the accumulator, whatever it
    holds, exactly the pairs whose attribute is the attribute of a pair of
    the resolved group, whatever their values, and keeps the others in
    their order; an inclusion token appends its group.  For references
    [a] and [b] with groups [A] and [B] in the request: the tokens [a !a]
    leave the empty list to the encoder, the tokens [a !a a] leave [A],
    and the tokens [a b !a] leave the pairs of [B] whose attribute is not
    one of [A]. *)
Theorem exclusion_then_inclusion (format : fr_json_format_t E)
    (request : request_t) (out : list fr_value_box_t)
    (a : list ascii) (vpt : tmpl_t) (rc : Z) (A : fr_pair_list_t)
    (b : list ascii) (vpt_b : tmpl_t) (rc_b : Z) (B : fr_pair_list_t) :
  starts_reference a ->
  (forall rest : list ascii, ends_reference rest ->
     tmpl_afrom_attr_substr E (dict request) (a ++ rest) json_arg_parse_rules
       = (Z.of_nat (List.length a), Some vpt)) ->
  tmpl_copy_pairs E request (Some vpt) = (rc, A) ->
  -1 <= rc ->
  starts_reference b ->
  (forall rest : list ascii, ends_reference rest ->
     tmpl_afrom_attr_substr E (dict request) (b ++ rest) json_arg_parse_rules
       = (Z.of_nat (List.length b), Some vpt_b)) ->
  tmpl_copy_pairs E request (Some vpt_b) = (rc_b, B) ->
  -1 <= rc_b ->
  (forall vps json_vps : fr_pair_list_t,
      json_encode_negate vps json_vps = kept_by_exclusion vps json_vps)
  /\ (forall (vps json_vps : fr_pair_list_t) (vpm : fr_pair_t),
        In vpm (json_encode_negate vps json_vps)
        <-> In vpm json_vps /\ ~ (exists vp, In vp vps /\ da vp = da vpm))
  /\ (forall (fuel : nat) (rest : list ascii) (json_vps : fr_pair_list_t),
        ends_reference rest ->
        json_encode_loop E (S fuel) request (bang :: a ++ rest) json_vps
          = json_encode_loop E fuel request (fr_sbuff_adv_past_whitespace rest)
              (kept_by_exclusion A json_vps))
  /\ (forall (fuel : nat) (rest : list ascii) (json_vps : fr_pair_list_t),
        ends_reference rest ->
        json_encode_loop E (S fuel) request (a ++ rest) json_vps
          = json_encode_loop E fuel request (fr_sbuff_adv_past_whitespace rest)
              (json_vps ++ A))
  /\ json_encode_loop E (List.length (a ++ space :: bang :: a)) request
       (a ++ space :: bang :: a) [] = ENCODE_LIST []
  /\ json_encode_loop E (List.length (a ++ space :: bang :: a ++ space :: a)) request
       (a ++ space :: bang :: a ++ space :: a) [] = ENCODE_LIST A
  /\ json_encode_xlat E format request out
       [vb_string (string_of_list_ascii (a ++ space :: bang :: a))]
     = encoded E format out []
  /\ json_encode_xlat E format request out
       [vb_string (string_of_list_ascii (a ++ space :: bang :: a ++ space :: a))]
     = encoded E format out A
  /\ json_encode_xlat E format request out
       [vb_string (string_of_list_ascii (a ++ space :: b ++ space :: bang :: a))]
     = encoded E format out (kept_by_exclusion A B).
Proof.
  intros Hstart Hresolve Hgroup Hrc Hstart_b Hresolve_b Hgroup_b Hrc_b.
  assert (H1 : json_encode_loop E (List.length (a ++ space :: bang :: a)) request
                 (a ++ space :: bang :: a) [] = ENCODE_LIST []).
  { rewrite length_app. simpl List.length. rewrite !Nat.add_succ_r.
    rewrite (json_encode_loop_include_exclude request a vpt rc A) by assumption.
    now rewrite json_encode_negate_nil. }
  assert (H2 : json_encode_loop E
                 (List.length (a ++ space :: bang :: a ++ space :: a)) request
                 (a ++ space :: bang :: a ++ space :: a) [] = ENCODE_LIST A).
  { rewrite length_app. simpl List.length. rewrite length_app. simpl List.length.
    rewrite !Nat.add_succ_r.
    rewrite (json_encode_loop_include_exclude_include request a vpt rc A) by assumption.
    now rewrite json_encode_negate_nil. }
  assert (H3 : json_encode_loop E
                 (List.length (a ++ space :: b ++ space :: bang :: a)) request
                 (a ++ space :: b ++ space :: bang :: a) []
               = ENCODE_LIST (kept_by_exclusion A B)).
  { rewrite length_app. simpl List.length. rewrite length_app. simpl List.length.
    rewrite !Nat.add_succ_r.
    rewrite (json_encode_loop_include request a vpt rc A Hstart Hresolve Hgroup Hrc)
      by apply ends_reference_space.
    change (fr_sbuff_adv_past_whitespace (space :: b ++ space :: bang :: a))
      with (fr_sbuff_adv_past_whitespace (b ++ space :: bang :: a)).
    rewrite (starts_reference_not_blank b _ Hstart_b).
    rewrite (json_encode_loop_include request b vpt_b rc_b B
               Hstart_b Hresolve_b Hgroup_b Hrc_b)
      by apply ends_reference_space.
    change (fr_sbuff_adv_past_whitespace (space :: bang :: a)) with (bang :: a).
    replace (bang :: a) with (bang :: a ++ []) by now rewrite app_nil_r.
    rewrite (json_encode_loop_exclude request a vpt rc A Hstart Hresolve Hgroup Hrc)
      by exact I.
    rewrite json_encode_loop_end, json_encode_negate_kept. f_equal.
    rewrite !kept_by_exclusion_app. simpl app.
    now rewrite (kept_by_exclusion_incl A A (incl_refl A)). }
  split; [intros; apply json_encode_negate_kept|].
  split; [intros; rewrite json_encode_negate_kept; apply kept_by_exclusion_In|].
  split.
  { intros fuel rest json_vps Hrest.
    rewrite (json_encode_loop_exclude request a vpt rc A Hstart Hresolve Hgroup Hrc)
      by exact Hrest.
    now rewrite json_encode_negate_kept. }
  split.
  { intros fuel rest json_vps Hrest.
    now apply (json_encode_loop_include request a vpt rc A). }
  split; [exact H1|]. split; [exact H2|].
  unfold json_encode_xlat. rewrite !FR_SBUFF_IN_text.
  rewrite !(starts_reference_not_blank a _ Hstart). rewrite H1, H2, H3.
  now repeat split.
Qed.

End Builder.

(** ** The properties on the sample services *)

Section Runs.

Import Inputs.

(** C1 at the input of the second scenario of the specification: the
    mapping [Reply-Message = $.msg] against a document without [msg].  No
    value is delivered (the request is unchanged) and the answer is
    UPDATED; the header of [mod_map_proc] promises NOOP. *)
Theorem no_match_answers_updated :
  mod_map_proc_instantiate W 1 blank src [map_msg] = (0, chain_msg, [])
  /\ mod_map_proc W chain_msg empty_request [vb_string doc_other] [map_msg]
     = Some (RLM_MODULE_UPDATED, empty_request).
Proof. split; reflexivity. Qed.

(** The same with no mapping at all. *)
Lemma no_mapping_answers_updated :
  mod_map_proc W [blank] empty_request [vb_string doc_other] []
    = Some (RLM_MODULE_UPDATED, empty_request).
Proof. reflexivity. Qed.

(** A match answers UPDATED too, and a malformed document FAIL. *)
Lemma match_answers_updated :
  mod_map_proc W chain_msg empty_request [vb_string doc_hello] [map_msg]
    = Some (RLM_MODULE_UPDATED, delivered_hello).
Proof. reflexivity. Qed.

Lemma malformed_document_fails :
  mod_map_proc W chain_msg empty_request
    [vb_string ("{" ++ Sample.quoted "msg" ++ ":")%string] [map_msg]
    = Some (RLM_MODULE_FAIL, empty_request).
Proof. reflexivity. Qed.

(** C2 as stated fails: [abc] is no 32-bit number, the evaluation of
    [map_msg; map_timeout] answers FAIL, and the value [map_msg] matched
    has been delivered all the same. *)
Lemma earlier_values_stay_delivered :
  Sample.coerce (da_type Session_Timeout) "abc" = None
  /\ mod_map_proc W chain_msg_timeout empty_request [vb_string doc_bad_timeout]
       [map_msg; map_timeout]
     = Some (RLM_MODULE_FAIL, delivered_hello)
  /\ request_pairs delivered_hello <> request_pairs empty_request.
Proof. split; [reflexivity|]. split; [reflexivity|discriminate]. Qed.

(** C3 as stated fails: for a static mapping followed by a dynamic one the
    chain has two entries for one static mapping, and the walk leaves the
    second one unread. *)
Lemma spare_entry_left_unread :
  mod_map_proc_instantiate W 1 blank src [map_msg; map_xlat]
    = (0, chain_msg_xlat, [])
  /\ List.length chain_msg_xlat <> List.length (filter static_rhs [map_msg; map_xlat])
  /\ mod_map_proc_maps W root_hello [map_msg; map_xlat] chain_msg_xlat
       empty_request RLM_MODULE_UPDATED
     = Some (RLM_MODULE_UPDATED,
             {| dict := dictionary;
                request_pairs := request_pairs delivered_hello
                                 ++ request_pairs delivered_hello |},
             [blank])
  /\ [blank] <> ([] : cache_chain W).
Proof.
  split; [reflexivity|]. split; [discriminate|]. split; [reflexivity|discriminate].
Qed.

(** C5 as stated fails: a mapping whose right-hand side is a regular
    expression is not passed over by the evaluator; its expansion is
    attempted and the evaluation answers FAIL. *)
Lemma unsupported_kind_not_skipped :
  type (rhs map_regex) = TMPL_TYPE_REGEX
  /\ mod_map_proc W [blank] empty_request [vb_string doc_hello] [map_regex]
     = Some (RLM_MODULE_FAIL, empty_request).
Proof. split; reflexivity. Qed.

End Runs.

(** ** The general properties at sample inputs *)

Section Instances.

Import Inputs.

(** The sample sink reports the failure of a callback and delivers
    nothing for it. *)
Lemma sample_sink_failure (req : request_t) (mp : map_t)
    (func : request_t -> map_t -> Z * fr_pair_list_t) :
  fst (func req mp) < 0 ->
  fst (map_to_request W req mp func) < 0
  /\ snd (map_to_request W req mp func) = req.
Proof.
  intros Hfail. change (map_to_request W) with Sample.map_to_request.
  unfold Sample.map_to_request. destruct (func req mp) as [rcode src_list].
  simpl in Hfail. apply Z.ltb_lt in Hfail. rewrite Hfail.
  apply Z.ltb_lt in Hfail. now split.
Defined.

(** The sample provider resolves [User-Name] wherever a terminal or the
    end of the buffer follows. *)
Lemma sample_User_Name_resolves (rest : list ascii) :
  ends_reference rest ->
  tmpl_afrom_attr_substr W (dict request) (User_Name_ref ++ rest) json_arg_parse_rules
    = (Z.of_nat (List.length User_Name_ref), Some (tmpl_attr User_Name)).
Proof.
  destruct rest as [|c rest]; [reflexivity|].
  intros [<-|[<-|[<-|[]]]]; reflexivity.
Defined.

(** C6 at a source made of one empty string. *)
Lemma mod_map_proc_empty_text_witness :
  vb_strvalue (snd (fr_value_box_list_concat_in_place W [vb_string EmptyString]))
    = EmptyString
  /\ mod_map_proc W chain_msg empty_request [vb_string EmptyString] [map_msg]
     = Some (RLM_MODULE_FAIL, empty_request).
Proof.
  split; [reflexivity|].
  apply (mod_map_proc_empty_text W chain_msg empty_request
           [vb_string EmptyString] [map_msg]).
  reflexivity.
Defined.

(** C8 at the sequence [map_msg; map_octets]. *)
Lemma uint64_mapping_rejected_witness :
  fst (fst (mod_map_proc_instantiate W_old 1 (talloc_zero_cache W_old) src
              ([map_msg] ++ map_octets :: []))) = -1
  /\ snd (mod_map_proc_instantiate W_old 1 (talloc_zero_cache W_old) src
            ([map_msg] ++ map_octets :: []))
     = [(104, upgrade_diagnostic)].
Proof.
  destruct (uint64_mapping_rejected W_old 1 (talloc_zero_cache W_old) src
              [map_msg] map_octets [] eq_refl eq_refl eq_refl) as [Hstatus Hlog].
  split; [exact Hstatus|]. apply Hlog. reflexivity.
Defined.

Lemma sample_Filter_Id_resolves (rest : list ascii) :
  ends_reference rest ->
  tmpl_afrom_attr_substr W (dict request) (Cases.Filter_Id_ref ++ rest)
    json_arg_parse_rules
    = (Z.of_nat (List.length Cases.Filter_Id_ref), Some (tmpl_attr Filter_Id)).
Proof.
  destruct rest as [|c rest]; [reflexivity|].
  intros [<-|[<-|[<-|[]]]]; reflexivity.
Defined.

(** C4 at the references [User-Name] and [Filter-Id] of the sample
    request. *)
Lemma exclusion_then_inclusion_witness :
  json_encode_xlat W tt request [] [vb_string "User-Name !User-Name"]
    = encoded W tt [] []
  /\ json_encode_xlat W tt request [] [vb_string "User-Name !User-Name User-Name"]
     = encoded W tt [] [pair User_Name "bob"]
  /\ json_encode_xlat W tt request [] [vb_string "User-Name Filter-Id !User-Name"]
     = encoded W tt [] [pair Filter_Id "x"].
Proof.
  apply (exclusion_then_inclusion W tt request [] User_Name_ref
           (tmpl_attr User_Name) 0 [pair User_Name "bob"]
           Cases.Filter_Id_ref (tmpl_attr Filter_Id) 0 [pair Filter_Id "x"]).
  - split; reflexivity.
  - exact sample_User_Name_resolves.
  - reflexivity.
  - discriminate.
  - split; reflexivity.
  - exact sample_Filter_Id_resolves.
  - reflexivity.
  - discriminate.
Defined.

(** C3 at the sequence [map_msg; map_xlat]. *)
Lemma cache_lock_step_witness :
  chain_msg_xlat = map (compiled_entry W) (filter static_rhs [map_msg; map_xlat])
                     ++ spare_entry W blank [map_msg; map_xlat]
  /\ exists rc request' cursor,
       mod_map_proc_maps W root_hello [map_msg; map_xlat] chain_msg_xlat
         empty_request RLM_MODULE_UPDATED = Some (rc, request', cursor)
       /\ (rc = RLM_MODULE_UPDATED -> cursor = spare_entry W blank [map_msg; map_xlat]).
Proof.
  destruct (cache_lock_step W 1 blank src [map_msg; map_xlat] chain_msg_xlat []
              eq_refl) as (Hchain & _ & Hwalk).
  split; [exact Hchain|]. exact (Hwalk root_hello empty_request).
Defined.

(** C2 at the sequence [map_msg; map_timeout] and a document whose [t] is
    no number. *)
Lemma coercion_failure_aborts_witness :
  snd (_json_map_proc_get_value W
         {| to_eval_jpath := Some "t" : option (fr_jpath_node_t W);
            root := root_bad_timeout |} delivered_hello map_timeout) = []
  /\ mod_map_proc W chain_msg_timeout empty_request [vb_string doc_bad_timeout]
       ([map_msg] ++ map_timeout :: [])
     = Some (RLM_MODULE_FAIL, delivered_hello).
Proof.
  apply (coercion_failure_aborts W chain_msg_timeout empty_request
           [vb_string doc_bad_timeout] [map_msg] map_timeout []
           root_bad_timeout delivered_hello [compiled "t"]
           (Some "t" : option (fr_jpath_node_t W))).
  - exact sample_sink_failure.
  - reflexivity.
  - reflexivity.
  - reflexivity.
  - reflexivity.
Defined.

(** C5 at the mapping [Reply-Message = $.msg] given as an expansion: it
    is evaluated and its value delivered, with the cursor left on the
    entry it found. *)
Lemma non_static_mapping_evaluated_witness :
  static_rhs map_xlat = false
  /\ instantiate_maps W [map_xlat] [] blank = (0, [blank], [])
  /\ mod_map_proc_maps W root_hello [map_xlat] [blank] empty_request
       RLM_MODULE_UPDATED
     = Some (RLM_MODULE_UPDATED, delivered_hello, [blank]).
Proof.
  destruct (non_static_mapping_evaluated W root_hello map_xlat [] [blank]
              empty_request [] blank eq_refl) as (Hinst & _ & _ & _ & Heval).
  split; [reflexivity|]. split; [exact Hinst|].
  rewrite Heval; [reflexivity|discriminate|reflexivity].
Defined.

End Instances.

(** ** More on the evaluator *)

Section Aborts.

Context (E : collaborators).

(** A walk that aborted is not changed by mappings added behind. *)
Lemma mod_map_proc_maps_abort_app (root : json_object E) (post : map_list_t) :
  forall (maps : map_list_t) (cache : cache_chain E) (request request' : request_t)
         (cursor : cache_chain E),
    mod_map_proc_maps E root maps cache request RLM_MODULE_UPDATED
      = Some (RLM_MODULE_FAIL, request', cursor) ->
    mod_map_proc_maps E root (maps ++ post) cache request RLM_MODULE_UPDATED
      = Some (RLM_MODULE_FAIL, request', cursor).
Proof.
  induction maps as [|m rest IH]; intros cache request request' cursor Hrun.
  - discriminate.
  - change ((m :: rest) ++ post) with (m :: (rest ++ post)).
    destruct (static_rhs m) eqn:Hs.
    + rewrite mod_map_proc_maps_static in * by exact Hs.
      destruct cache as [|entry next]; [discriminate|].
      cbv zeta in *. destruct (map_to_request E request m _) as [ret r1].
      destruct (ret <? 0); [exact Hrun|]. now apply IH.
    + rewrite mod_map_proc_maps_dynamic in * by exact Hs.
      destruct (tmpl_aexpand E request (rhs m)) as [ret to_parse].
      destruct (ret <? 0); [exact Hrun|].
      cbv zeta in *. destruct (slen _ <=? 0); [exact Hrun|].
      destruct (map_to_request E request m _) as [ret1 r1].
      destruct (ret1 <? 0); [exact Hrun|]. now apply IH.
Qed.

(** X1. [mod_map_proc] never answers NOOP (nor any code other than
    UPDATED and FAIL), whatever the services, the chain, the document and
    the mappings. *)
Theorem mod_map_proc_updated_or_fail (proc_inst : cache_chain E)
    (request : request_t) (json : list fr_value_box_t) (maps : map_list_t)
    (rc : rlm_rcode_t) (request' : request_t) :
  mod_map_proc E proc_inst request json maps = Some (rc, request') ->
  rc <> RLM_MODULE_NOOP /\ (rc = RLM_MODULE_UPDATED \/ rc = RLM_MODULE_FAIL).
Proof.
  intros H. destruct (json_root E json) as [root|] eqn:Hroot.
  - rewrite (mod_map_proc_root E _ _ _ _ _ Hroot) in H.
    destruct (mod_map_proc_maps E root maps proc_inst request RLM_MODULE_UPDATED)
      as [[[rc0 r0] c0]|] eqn:Hrun; [|discriminate H].
    injection H as <- _.
    destruct (mod_map_proc_maps_rcode E _ _ _ _ _ _ _ _ Hrun) as [->| ->];
      (split; [discriminate|]); [now left|now right].
  - rewrite (mod_map_proc_no_root E _ _ _ _ Hroot) in H. injection H as <- _.
    split; [discriminate|now right].
Qed.

(** X2. Once an evaluation has answered FAIL, mappings added behind the
    sequence change neither the answer nor the request it leaves: the
    mappings after the failing one are not evaluated. *)
Theorem mod_map_proc_abort_final (proc_inst : cache_chain E)
    (request : request_t) (json : list fr_value_box_t) (maps post : map_list_t)
    (request' : request_t) :
  mod_map_proc E proc_inst request json maps = Some (RLM_MODULE_FAIL, request') ->
  mod_map_proc E proc_inst request json (maps ++ post)
    = Some (RLM_MODULE_FAIL, request').
Proof.
  intros H. destruct (json_root E json) as [root|] eqn:Hroot.
  - rewrite (mod_map_proc_root E _ _ _ _ _ Hroot) in H.
    rewrite (mod_map_proc_root E _ _ _ _ _ Hroot).
    destruct (mod_map_proc_maps E root maps proc_inst request RLM_MODULE_UPDATED)
      as [[[rc0 r0] c0]|] eqn:Hrun; [|discriminate H].
    injection H as -> ->.
    now rewrite (mod_map_proc_maps_abort_app root post _ _ _ _ _ Hrun).
  - rewrite (mod_map_proc_no_root E _ _ _ _ Hroot) in H.
    now rewrite (mod_map_proc_no_root E _ _ _ _ Hroot).
Qed.

(** Entries behind the ones a walk reads play no part in it. *)
Lemma mod_map_proc_maps_extra (root : json_object E) (extra : cache_chain E) :
  forall (maps : map_list_t) (cache : cache_chain E) (request : request_t)
         (rcode rc : rlm_rcode_t) (request' : request_t) (cursor : cache_chain E),
    mod_map_proc_maps E root maps cache request rcode = Some (rc, request', cursor) ->
    mod_map_proc_maps E root maps (cache ++ extra) request rcode
      = Some (rc, request', cursor ++ extra).
Proof.
  induction maps as [|m rest IH]; intros cache request rcode rc request' cursor Hrun.
  - simpl in *. now injection Hrun as <- <- <-.
  - destruct (static_rhs m) eqn:Hs.
    + rewrite mod_map_proc_maps_static in Hrun by exact Hs.
      rewrite mod_map_proc_maps_static by exact Hs.
      destruct cache as [|entry next]; [discriminate|].
      change ((entry :: next) ++ extra) with (entry :: (next ++ extra)).
      cbv beta iota zeta in *. destruct (map_to_request E request m _) as [ret r1].
      destruct (ret <? 0); [now injection Hrun as <- <- <-|]. now apply IH.
    + rewrite mod_map_proc_maps_dynamic in Hrun by exact Hs.
      rewrite mod_map_proc_maps_dynamic by exact Hs.
      destruct (tmpl_aexpand E request (rhs m)) as [ret to_parse].
      destruct (ret <? 0); [now injection Hrun as <- <- <-|].
      cbv zeta in *. destruct (slen _ <=? 0); [now injection Hrun as <- <- <-|].
      destruct (map_to_request E request m _) as [ret1 r1].
      destruct (ret1 <? 0); [now injection Hrun as <- <- <-|]. now apply IH.
Qed.

(** X3. An evaluation that gives an answer gives the same answer, with
    the same request, when entries are added at the end of the chain:
    entries behind the ones the static mappings consume are never read. *)
Theorem mod_map_proc_extra_entries (proc_inst extra : cache_chain E)
    (request : request_t) (json : list fr_value_box_t) (maps : map_list_t)
    (rc : rlm_rcode_t) (request' : request_t) :
  mod_map_proc E proc_inst request json maps = Some (rc, request') ->
  mod_map_proc E (proc_inst ++ extra) request json maps = Some (rc, request').
Proof.
  intros H. destruct (json_root E json) as [root|] eqn:Hroot.
  - rewrite (mod_map_proc_root E _ _ _ _ _ Hroot) in H.
    rewrite (mod_map_proc_root E _ _ _ _ _ Hroot).
    destruct (mod_map_proc_maps E root maps proc_inst request RLM_MODULE_UPDATED)
      as [[[rc0 r0] c0]|] eqn:Hrun; [|discriminate H].
    now rewrite (mod_map_proc_maps_extra root extra _ _ _ _ _ _ _ Hrun).
  - rewrite (mod_map_proc_no_root E _ _ _ _ Hroot) in H.
    now rewrite (mod_map_proc_no_root E _ _ _ _ Hroot).
Qed.

(** X4. The three exits before the loop: with no source box, with a
    failed concatenation, or with a text json-c cannot parse,
    [mod_map_proc] answers FAIL and leaves the request as it was, whatever
    the chain and the mappings. *)
Theorem mod_map_proc_document_failure (proc_inst : cache_chain E)
    (request : request_t) (json : list fr_value_box_t) (maps : map_list_t) :
  json = []
  \/ fst (fr_value_box_list_concat_in_place E json) < 0
  \/ json_tokener_parse_ex E
       (vb_strvalue (snd (fr_value_box_list_concat_in_place E json)))
       (to_int (talloc_array_length
                  (vb_strvalue (snd (fr_value_box_list_concat_in_place E json))) - 1))
     = None ->
  mod_map_proc E proc_inst request json maps = Some (RLM_MODULE_FAIL, request).
Proof.
  intros H. apply mod_map_proc_no_root. unfold json_root.
  destruct json as [|json_head rest]; [reflexivity|].
  destruct (fr_value_box_list_concat_in_place E (json_head :: rest)) as [rc jh].
  destruct H as [H|[H|H]]; [discriminate H| |]; simpl in H.
  - apply Z.ltb_lt in H. now rewrite H.
  - destruct (rc <? 0); [reflexivity|].
    destruct (to_size_t _ =? 0); [reflexivity|exact H].
Qed.

(** X5. For a source text of at least one and fewer than 2^31 bytes the
    conversions of the length to [size_t] and to [int] change nothing:
    json-c is handed the text with its exact length, and the answer is
    FAIL when it finds no document and the answer of the loop otherwise. *)
Theorem mod_map_proc_exact_length (proc_inst : cache_chain E)
    (request : request_t) (json_head : fr_value_box_t)
    (rest : list fr_value_box_t) (maps : map_list_t) (json_str : string) :
  0 <= fst (fr_value_box_list_concat_in_place E (json_head :: rest)) ->
  vb_strvalue (snd (fr_value_box_list_concat_in_place E (json_head :: rest)))
    = json_str ->
  0 < Z.of_nat (String.length json_str) < 2 ^ 31 ->
  mod_map_proc E proc_inst request (json_head :: rest) maps =
    match json_tokener_parse_ex E json_str (Z.of_nat (String.length json_str)) with
    | None => Some (RLM_MODULE_FAIL, request)
    | Some root =>
        match mod_map_proc_maps E root maps proc_inst request RLM_MODULE_UPDATED with
        | Some (rc, request', _) => Some (rc, request')
        | None => None
        end
    end.
Proof.
  intros Hrc Htext Hlen. unfold mod_map_proc.
  destruct (fr_value_box_list_concat_in_place E (json_head :: rest)) as [rc jh].
  simpl in Hrc, Htext. subst json_str.
  replace (rc <? 0) with false by (symmetry; apply Z.ltb_ge; lia).
  unfold talloc_array_length.
  replace (Z.of_nat (String.length (vb_strvalue jh)) + 1 - 1)
    with (Z.of_nat (String.length (vb_strvalue jh))) by lia.
  assert (Hsize : to_size_t (Z.of_nat (String.length (vb_strvalue jh)))
                  = Z.of_nat (String.length (vb_strvalue jh))).
  { unfold to_size_t. apply Z.mod_small. lia. }
  assert (Hint : to_int (Z.of_nat (String.length (vb_strvalue jh)))
                 = Z.of_nat (String.length (vb_strvalue jh))).
  { unfold to_int. rewrite Z.mod_small by lia. lia. }
  rewrite Hsize, Hint.
  replace (Z.of_nat (String.length (vb_strvalue jh)) =? 0) with false
    by (symmetry; apply Z.eqb_neq; lia).
  reflexivity.
Qed.

End Aborts.

(** ** More on the callback of the evaluator *)

Section Callback.

Context (E : collaborators).

Lemma steal_values_pairs (m : map_t) (values : list fr_value_box_t) :
  (forall value, In value values -> 0 <= fst (fr_value_box_steal E value)) ->
  forall out : fr_pair_list_t,
    steal_values E m values out = (0, out ++ map (leaf_pair E m) values).
Proof.
  induction values as [|v rest IH]; intros Hok out.
  - simpl. now rewrite app_nil_r.
  - simpl. pose proof (Hok v (or_introl eq_refl)) as Hv. unfold leaf_pair at 1.
    destruct (fr_value_box_steal E v) as [rc stolen]. simpl in Hv.
    replace (rc <? 0) with false by (symmetry; apply Z.ltb_ge; lia).
    rewrite IH by (intros value Hin; apply Hok; now right).
    now rewrite <- app_assoc.
Qed.

Lemma steal_values_code (m : map_t) (values : list fr_value_box_t) :
  forall out : fr_pair_list_t,
    fst (steal_values E m values out) = 0 \/ fst (steal_values E m values out) = -1.
Proof.
  induction values as [|v rest IH]; intros out; [now left|].
  simpl. destruct (fr_value_box_steal E v) as [rc stolen].
  destruct (rc <? 0); [now right|apply IH].
Qed.

(** X6. When the evaluator matches nothing the callback succeeds with no
    pair.  When it matches leaves that can all be moved, the callback
    succeeds with exactly one pair per leaf, in the order of the leaves,
    each for the target attribute of the mapping and carrying its
    operator. *)
Theorem get_value_one_pair_per_leaf (to_eval : rlm_json_jpath_to_eval_t E)
    (request : request_t) (m : map_t) (ret : Z) (values : list fr_value_box_t) :
  fr_jpath_evaluate_leaf E request (da_type (tmpl_da (lhs m))) (tmpl_da (lhs m))
    (root to_eval) (to_eval_jpath to_eval) = (ret, values) ->
  (ret = 0 -> _json_map_proc_get_value E to_eval request m = (0, []))
  /\ (0 < ret ->
      (forall value, In value values -> 0 <= fst (fr_value_box_steal E value)) ->
      _json_map_proc_get_value E to_eval request m
        = (0, map (leaf_pair E m) values)
      /\ List.length (snd (_json_map_proc_get_value E to_eval request m))
         = List.length values
      /\ Forall (fun vp => da vp = tmpl_da (lhs m) /\ op vp = map_op m)
                (snd (_json_map_proc_get_value E to_eval request m))).
Proof.
  intros Heval. unfold _json_map_proc_get_value. rewrite Heval. split.
  - intros ->. reflexivity.
  - intros Hret Hok.
    replace (ret <? 0) with false by (symmetry; apply Z.ltb_ge; lia).
    replace (ret =? 0) with false by (symmetry; apply Z.eqb_neq; lia).
    rewrite (steal_values_pairs m values Hok []). simpl.
    split; [reflexivity|]. split; [apply length_map|].
    apply Forall_forall. intros vp Hin. apply in_map_iff in Hin.
    destruct Hin as (value & <- & _). now split.
Qed.

(** X7. The callback fails exactly when the evaluator fails, or when it
    matched leaves of which one cannot be moved into a pair; and a failed
    callback hands over no pair, also not the pairs made of the leaves
    before the failing one. *)
Theorem get_value_fails_exactly (to_eval : rlm_json_jpath_to_eval_t E)
    (request : request_t) (m : map_t) (ret : Z) (values : list fr_value_box_t) :
  fr_jpath_evaluate_leaf E request (da_type (tmpl_da (lhs m))) (tmpl_da (lhs m))
    (root to_eval) (to_eval_jpath to_eval) = (ret, values) ->
  (fst (_json_map_proc_get_value E to_eval request m) < 0
   <-> ret < 0
       \/ (0 < ret /\ exists value,
              In value values /\ fst (fr_value_box_steal E value) < 0))
  /\ (fst (_json_map_proc_get_value E to_eval request m) < 0 ->
      _json_map_proc_get_value E to_eval request m = (-1, [])).
Proof.
  intros Heval. split.
  - unfold _json_map_proc_get_value. rewrite Heval.
    destruct (ret <? 0) eqn:Hneg.
    + apply Z.ltb_lt in Hneg. simpl. split; [now left|lia].
    + apply Z.ltb_ge in Hneg. destruct (ret =? 0) eqn:Hzero.
      * apply Z.eqb_eq in Hzero. simpl. split; [lia|]. intros [H|[H _]]; lia.
      * apply Z.eqb_neq in Hzero. rewrite steal_values_status. split.
        -- intros H. right. split; [lia|exact H].
        -- intros [H|[_ H]]; [lia|exact H].
  - intros Hfail. pose proof (get_value_failure E _ _ _ Hfail) as Hout.
    destruct (_json_map_proc_get_value E to_eval request m) as [rc out] eqn:Hcall.
    simpl in Hout. subst out. f_equal.
    unfold _json_map_proc_get_value in Hcall. rewrite Heval in Hcall.
    destruct (ret <? 0); [now injection Hcall as <-|].
    destruct (ret =? 0); [injection Hcall as <-; simpl in Hfail; lia|].
    simpl in Hfail. destruct (steal_values_code m values []) as [H|H];
      rewrite Hcall in H; simpl in H; lia.
Qed.

End Callback.

(** ** More on the instantiation *)

Section Verdicts.

Context (E : collaborators).

(** One turn of the loop, by the checks of the mapping: an accepted
    mapping hands the rest of the sequence to the loop, a rejected one
    ends it with diagnostics that depend on the mapping alone. *)
Lemma instantiate_maps_checked (m : map_t) :
  (map_accepted E m = true
   /\ forall rest done cache, exists done' cache',
        instantiate_maps E (m :: rest) done cache
          = instantiate_maps E rest done' cache')
  \/ (map_accepted E m = false
      /\ exists log : cf_log, log <> []
         /\ forall rest done cache, exists chain,
              instantiate_maps E (m :: rest) done cache = (-1, chain, log)).
Proof.
  unfold map_accepted. destruct (uint64_unsupported E m) eqn:Hu.
  { right. split; [reflexivity|]. eexists. split; [|intros; eexists;
      now apply instantiate_maps_uint64]. discriminate. }
  destruct (static_rhs m) eqn:Hs.
  2:{ left. split.
      - unfold static_rhs in Hs. destruct (type (rhs m)); try discriminate; reflexivity.
      - intros. eexists _, _. now apply instantiate_maps_skip. }
  unfold uint64_unsupported in Hu. unfold static_rhs in Hs.
  destruct (type (rhs m)) eqn:Hk; try discriminate.
  - destruct (0 <? slen (fr_jpath_parse E (name (rhs m)) (len (rhs m)))) eqn:Hp.
    + left. split; [reflexivity|]. intros rest done cache. simpl. rewrite Hu, Hk.
      apply Z.ltb_lt in Hp.
      replace (slen _ <=? 0) with false by (symmetry; apply Z.leb_gt; exact Hp).
      destruct (map_list_next_exists rest); now eexists _, _.
    + right. split; [reflexivity|]. apply Z.ltb_ge in Hp.
      destruct (fr_canonicalize_error E
                  (slen (fr_jpath_parse E (name (rhs m)) (len (rhs m))))
                  (fr_strerror (fr_jpath_parse E (name (rhs m)) (len (rhs m)))))
        as [spaces text] eqn:Hc.
      eexists. split; [|intros rest done cache; simpl; rewrite Hu, Hk;
        replace (slen _ <=? 0) with true by (symmetry; apply Z.leb_le; exact Hp);
        rewrite Hc; eexists; reflexivity]. discriminate.
  - destruct (fr_type_eqb (tmpl_value_type (rhs m)) FR_TYPE_STRING) eqn:Ht.
    2:{ right. split; [reflexivity|]. eexists. split; [|intros rest done cache;
          simpl; rewrite Hu, Hk, Ht; eexists; reflexivity]. discriminate. }
    destruct (0 <? slen (fr_jpath_parse E (vb_strvalue (tmpl_value (rhs m)))
                           (tmpl_value_length (rhs m)))) eqn:Hp.
    + left. split; [reflexivity|]. intros rest done cache. simpl. rewrite Hu, Hk, Ht.
      apply Z.ltb_lt in Hp. simpl negb. cbv iota.
      replace (slen _ <=? 0) with false by (symmetry; apply Z.leb_gt; exact Hp).
      destruct (map_list_next_exists rest); now eexists _, _.
    + right. split; [reflexivity|]. apply Z.ltb_ge in Hp.
      destruct (fr_canonicalize_error E
                  (slen (fr_jpath_parse E (vb_strvalue (tmpl_value (rhs m)))
                           (tmpl_value_length (rhs m))))
                  (fr_strerror (fr_jpath_parse E (vb_strvalue (tmpl_value (rhs m)))
                                  (tmpl_value_length (rhs m)))))
        as [spaces text] eqn:Hc.
      eexists. split; [|intros rest done cache; simpl; rewrite Hu, Hk, Ht;
        simpl negb; cbv iota;
        replace (slen _ <=? 0) with true by (symmetry; apply Z.leb_le; exact Hp);
        rewrite Hc; eexists; reflexivity]. discriminate.
Qed.

(** The loop returns 0 without diagnostics when every mapping passes its
    checks, and -1 with diagnostics otherwise. *)
Lemma instantiate_maps_result (maps : map_list_t) :
  forall (done : cache_chain E) (cache : rlm_json_jpath_cache_t E),
    (forallb (map_accepted E) maps = true
     /\ fst (fst (instantiate_maps E maps done cache)) = 0
     /\ snd (instantiate_maps E maps done cache) = [])
    \/ (forallb (map_accepted E) maps = false
        /\ fst (fst (instantiate_maps E maps done cache)) = -1
        /\ snd (instantiate_maps E maps done cache) <> []).
Proof.
  induction maps as [|m rest IH]; intros done cache.
  - left. now repeat split.
  - simpl forallb.
    destruct (instantiate_maps_checked m) as [[Hm Hgo]|[Hm (log & Hlog & Hend)]];
      rewrite Hm.
    + destruct (Hgo rest done cache) as (done' & cache' & ->). apply IH.
    + destruct (Hend rest done cache) as (chain & ->). right. now repeat split.
Qed.

(** X8. [mod_map_proc_instantiate] returns 0 or -1, and it reports
    diagnostics exactly when it returns -1: an accepted mapping-set is
    silent and a rejected one always says why. *)
Theorem instantiate_reports_iff_fails (cs : CONF_ITEM)
    (proc_inst : rlm_json_jpath_cache_t E) (src : option tmpl_t)
    (maps : map_list_t) :
  (fst (fst (mod_map_proc_instantiate E cs proc_inst src maps)) = 0
   /\ snd (mod_map_proc_instantiate E cs proc_inst src maps) = [])
  \/ (fst (fst (mod_map_proc_instantiate E cs proc_inst src maps)) = -1
      /\ snd (mod_map_proc_instantiate E cs proc_inst src maps) <> []).
Proof.
  unfold mod_map_proc_instantiate. destruct src as [src|].
  - destruct (instantiate_maps_result maps [] proc_inst) as [(_ & H)|(_ & H)];
      [now left|now right].
  - right. split; [reflexivity|discriminate].
Qed.

(** X9. A mapping-set is accepted exactly when a JSON source is given and
    every mapping passes its own checks (target type, type of a literal,
    compilation of a static or literal right-hand side): acceptance does
    not depend on the order of the mappings nor on the pre-allocated
    entry. *)
Theorem instantiate_accepts_iff (cs : CONF_ITEM)
    (proc_inst : rlm_json_jpath_cache_t E) (src : option tmpl_t)
    (maps : map_list_t) :
  fst (fst (mod_map_proc_instantiate E cs proc_inst src maps)) = 0
  <-> src <> None /\ forallb (map_accepted E) maps = true.
Proof.
  unfold mod_map_proc_instantiate. destruct src as [src|].
  - destruct (instantiate_maps_result maps [] proc_inst)
      as [(Hall & H0 & _)|(Hall & H1 & _)].
    + split; [intros _; split; [discriminate|exact Hall]|intros _; exact H0].
    + rewrite H1, Hall. split; [discriminate|]. intros [_ H]. discriminate H.
  - simpl. split; [discriminate|]. intros [H _]. now contradiction H.
Qed.

Lemma instantiate_maps_accepted_prefix (pre suffix : map_list_t)
    (done : cache_chain E) (cache : rlm_json_jpath_cache_t E) :
  forallb (map_accepted E) pre = true ->
  exists done1 cache1,
    instantiate_maps E (pre ++ suffix) done cache
      = instantiate_maps E suffix done1 cache1.
Proof.
  intros Hpre. apply instantiate_maps_prefix.
  destruct (instantiate_maps_result pre done cache) as [(_ & H & _)|(H & _)];
    [exact H|rewrite Hpre in H; discriminate H].
Qed.

(** X10. Instantiation stops at the first mapping that fails its checks:
    the diagnostics for a sequence are those the rejected mapping gets on
    its own, whatever comes before (accepted) and after it. *)
Theorem instantiate_fail_fast (cs : CONF_ITEM)
    (proc_inst : rlm_json_jpath_cache_t E) (src : tmpl_t)
    (pre : map_list_t) (m : map_t) (post : map_list_t) :
  forallb (map_accepted E) pre = true ->
  map_accepted E m = false ->
  fst (fst (mod_map_proc_instantiate E cs proc_inst (Some src) (pre ++ m :: post))) = -1
  /\ snd (mod_map_proc_instantiate E cs proc_inst (Some src) (pre ++ m :: post))
     = snd (mod_map_proc_instantiate E cs proc_inst (Some src) [m]).
Proof.
  intros Hpre Hm. unfold mod_map_proc_instantiate.
  destruct (instantiate_maps_accepted_prefix pre (m :: post) [] proc_inst Hpre)
    as (done1 & cache1 & ->).
  destruct (instantiate_maps_checked m) as [[Hacc _]|[_ (log & _ & Hend)]];
    [rewrite Hacc in Hm; discriminate Hm|].
  destruct (Hend post done1 cache1) as (chain & ->).
  destruct (Hend [] [] proc_inst) as (chain' & ->). now split.
Qed.

(** X11. A static or literal right-hand side that does not compile is
    reported on the item of its mapping in three lines: "Syntax error",
    the text, and the caret line [fr_canonicalize_error] builds from the
    offset and the message of the compiler. *)
Theorem instantiate_syntax_error (cs : CONF_ITEM)
    (proc_inst : rlm_json_jpath_cache_t E) (src : tmpl_t)
    (pre : map_list_t) (m : map_t) (post : map_list_t) :
  forallb (map_accepted E) pre = true ->
  uint64_unsupported E m = false ->
  static_rhs m = true ->
  (type (rhs m) = TMPL_TYPE_DATA -> tmpl_value_type (rhs m) = FR_TYPE_STRING) ->
  slen (fr_jpath_parse E (rhs_text m) (rhs_length m)) <= 0 ->
  mod_map_proc_instantiate E cs proc_inst (Some src) (pre ++ m :: post)
    = (-1, snd (fst (mod_map_proc_instantiate E cs proc_inst (Some src)
                       (pre ++ m :: post))),
       syntax_diagnostics E m).
Proof.
  intros Hpre Hu Hs Hstring Hp. unfold mod_map_proc_instantiate.
  destruct (instantiate_maps_accepted_prefix pre (m :: post) [] proc_inst Hpre)
    as (done1 & cache1 & ->).
  unfold uint64_unsupported in Hu. unfold static_rhs in Hs.
  unfold syntax_diagnostics, rhs_text, rhs_length in *.
  apply Z.leb_le in Hp. simpl. rewrite Hu.
  destruct (type (rhs m)); try discriminate.
  - rewrite Hp. now destruct (fr_canonicalize_error E _ _).
  - rewrite (Hstring eq_refl). simpl. rewrite Hp.
    now destruct (fr_canonicalize_error E _ _).
Qed.

(** X12. A literal right-hand side that is not a string is rejected with
    "Right side of map must be a string" and is not handed to the
    compiler: the diagnostic is the same whatever the compiler would say
    of its text. *)
Theorem instantiate_literal_not_string (cs : CONF_ITEM)
    (proc_inst : rlm_json_jpath_cache_t E) (src : tmpl_t)
    (pre : map_list_t) (m : map_t) (post : map_list_t) :
  forallb (map_accepted E) pre = true ->
  uint64_unsupported E m = false ->
  type (rhs m) = TMPL_TYPE_DATA ->
  tmpl_value_type (rhs m) <> FR_TYPE_STRING ->
  fst (fst (mod_map_proc_instantiate E cs proc_inst (Some src) (pre ++ m :: post))) = -1
  /\ snd (mod_map_proc_instantiate E cs proc_inst (Some src) (pre ++ m :: post))
     = [(ci m, "Right side of map must be a string")].
Proof.
  intros Hpre Hu Hk Ht. unfold mod_map_proc_instantiate.
  destruct (instantiate_maps_accepted_prefix pre (m :: post) [] proc_inst Hpre)
    as (done1 & cache1 & ->).
  unfold uint64_unsupported in Hu. simpl. rewrite Hu, Hk.
  assert (Hneq : fr_type_eqb (tmpl_value_type (rhs m)) FR_TYPE_STRING = false).
  { destruct (tmpl_value_type (rhs m)); try reflexivity. now contradiction Ht. }
  rewrite Hneq. now split.
Qed.

End Verdicts.

(** ** More on the document builder *)

Section Scanning.

Context (E : collaborators).

(** X13. [json_encode_xlat] answers on every argument: its loop ends,
    because every turn consumes at least one byte.  It either fails and
    leaves the output cursor as it was, or succeeds and appends exactly
    one string box. *)
Theorem json_encode_xlat_answers (format : fr_json_format_t E)
    (request : request_t) (out : list fr_value_box_t)
    (in_head : fr_value_box_t) (rest : list fr_value_box_t) :
  json_encode_xlat E format request out (in_head :: rest)
    = Some (XLAT_ACTION_FAIL, out)
  \/ exists json_str : string,
       json_encode_xlat E format request out (in_head :: rest)
         = Some (XLAT_ACTION_DONE, out ++ [vb_string json_str]).
Proof.
  unfold json_encode_xlat.
  pose proof (json_encode_loop_fuel E request _
    (fr_sbuff_adv_past_whitespace (FR_SBUFF_IN (vb_strvalue in_head) (vb_length in_head)))
    [] (le_n _)) as Hfuel.
  destruct (json_encode_loop E _ request _ []); [|now left|contradiction].
  destruct (fr_json_afrom_pair_list E json_vps format) as [json_str|];
    [right; now exists json_str|now left].
Qed.

Lemma fr_sbuff_adv_past_blank (ws text : list ascii) :
  blank_bytes ws = true ->
  fr_sbuff_adv_past_whitespace (ws ++ text) = fr_sbuff_adv_past_whitespace text.
Proof.
  unfold blank_bytes. induction ws as [|c ws IH]; [reflexivity|].
  simpl. intros H. apply andb_prop in H. destruct H as [Hc Hws].
  rewrite Hc. now apply IH.
Qed.

(** X14. White space before the first token is ignored, and an argument
    that is empty or all white space is no error: the encoder is handed
    the empty list. *)
Theorem json_encode_xlat_blank (format : fr_json_format_t E)
    (request : request_t) (out : list fr_value_box_t) (ws text : list ascii) :
  blank_bytes ws = true ->
  json_encode_xlat E format request out [vb_string (string_of_list_ascii (ws ++ text))]
    = json_encode_xlat E format request out [vb_string (string_of_list_ascii text)]
  /\ json_encode_xlat E format request out [vb_string (string_of_list_ascii ws)]
     = encoded E format out [].
Proof.
  intros Hws. unfold json_encode_xlat. rewrite !FR_SBUFF_IN_text.
  rewrite (fr_sbuff_adv_past_blank ws text Hws). split; [reflexivity|].
  rewrite <- (app_nil_r ws), (fr_sbuff_adv_past_blank ws [] Hws). reflexivity.
Qed.

Section Reference.

Variables (request : request_t) (a : list ascii) (vpt : tmpl_t)
          (rc : Z) (A : fr_pair_list_t).

Hypothesis a_starts : starts_reference a.
Hypothesis a_resolves :
  forall rest : list ascii, ends_reference rest ->
    tmpl_afrom_attr_substr E (dict request) (a ++ rest) json_arg_parse_rules
      = (Z.of_nat (List.length a), Some vpt).
Hypothesis a_group : tmpl_copy_pairs E request (Some vpt) = (rc, A).

(** A turn of the loop on a reference the provider cannot copy. *)
Lemma json_encode_loop_copy_error (fuel : nat) (rest : list ascii)
    (json_vps : fr_pair_list_t) :
  ends_reference rest ->
  rc < -1 ->
  json_encode_loop E (S fuel) request (a ++ rest) json_vps = ENCODE_ERROR.
Proof.
  intros Hrest Hrc. pose proof (a_resolves rest Hrest) as Htok.
  destruct a as [|c l] eqn:Ha; [contradiction|].
  destruct a_starts as [_ Hbang].
  change ((c :: l) ++ rest) with (c :: (l ++ rest)) in *.
  simpl json_encode_loop. change (ascii_of_nat 33) with bang. rewrite Hbang.
  rewrite Htok.
  replace (Z.of_nat (List.length (c :: l)) <=? 0) with false
    by (symmetry; apply Z.leb_gt; simpl List.length; lia).
  rewrite a_group.
  now replace (rc <? -1) with true by (symmetry; apply Z.ltb_lt; lia).
Qed.

End Reference.

(** X15. For an argument that is one reference: when the provider
    reports an error (a status below -1) the build fails and nothing is
    appended; a status of -1, a missing attribute, is no error, and the
    encoder is handed whatever was copied. *)
Theorem json_encode_xlat_copy_status (format : fr_json_format_t E)
    (request : request_t) (out : list fr_value_box_t)
    (a : list ascii) (vpt : tmpl_t) (rc : Z) (A : fr_pair_list_t) :
  starts_reference a ->
  (forall rest : list ascii, ends_reference rest ->
     tmpl_afrom_attr_substr E (dict request) (a ++ rest) json_arg_parse_rules
       = (Z.of_nat (List.length a), Some vpt)) ->
  tmpl_copy_pairs E request (Some vpt) = (rc, A) ->
  json_encode_xlat E format request out [vb_string (string_of_list_ascii a)]
    = if rc <? -1 then Some (XLAT_ACTION_FAIL, out) else encoded E format out A.
Proof.
  intros Hstart Hresolve Hgroup. unfold json_encode_xlat.
  rewrite FR_SBUFF_IN_text.
  pose proof (starts_reference_not_blank a [] Hstart) as Hblank.
  rewrite app_nil_r in Hblank. rewrite Hblank.
  destruct a as [|c l] eqn:Ha; [contradiction|]. rewrite <- Ha in *.
  replace (List.length a) with (S (List.length l)) by (rewrite Ha; reflexivity).
  rewrite <- (app_nil_r a) at 1.
  destruct (rc <? -1) eqn:Hrc.
  - apply Z.ltb_lt in Hrc.
    now rewrite (json_encode_loop_copy_error request a vpt rc A Hstart Hresolve Hgroup).
  - apply Z.ltb_ge in Hrc.
    rewrite (json_encode_loop_include E request a vpt rc A Hstart Hresolve Hgroup)
      by (exact I || lia).
    simpl fr_sbuff_adv_past_whitespace. now rewrite json_encode_loop_end.
Qed.

(** X16. A token that does not resolve aborts the build also after a
    token that did: the pairs accumulated so far are dropped, the function
    fails and nothing is appended to the output. *)
Theorem json_encode_xlat_bad_token (format : fr_json_format_t E)
    (request : request_t) (out : list fr_value_box_t)
    (a : list ascii) (vpt : tmpl_t) (rc : Z) (A : fr_pair_list_t)
    (bad : list ascii) :
  starts_reference a ->
  (forall rest : list ascii, ends_reference rest ->
     tmpl_afrom_attr_substr E (dict request) (a ++ rest) json_arg_parse_rules
       = (Z.of_nat (List.length a), Some vpt)) ->
  tmpl_copy_pairs E request (Some vpt) = (rc, A) ->
  -1 <= rc ->
  starts_reference bad ->
  fst (tmpl_afrom_attr_substr E (dict request) bad json_arg_parse_rules) <= 0 ->
  json_encode_xlat E format request out
    [vb_string (string_of_list_ascii (a ++ space :: bad))]
    = Some (XLAT_ACTION_FAIL, out).
Proof.
  intros Hstart Hresolve Hgroup Hrc Hbad Hfail. unfold json_encode_xlat.
  rewrite FR_SBUFF_IN_text, (starts_reference_not_blank a _ Hstart).
  rewrite length_app. simpl List.length. rewrite Nat.add_succ_r.
  rewrite (json_encode_loop_include E request a vpt rc A Hstart Hresolve Hgroup Hrc)
    by apply ends_reference_space.
  change (fr_sbuff_adv_past_whitespace (space :: bad))
    with (fr_sbuff_adv_past_whitespace bad).
  pose proof (starts_reference_not_blank bad [] Hbad) as Hblank.
  rewrite app_nil_r in Hblank. rewrite Hblank.
  destruct bad as [|c l]; [contradiction|]. destruct Hbad as [_ Hbang].
  simpl List.length. rewrite Nat.add_succ_r. simpl json_encode_loop.
  change (ascii_of_nat 33) with bang. rewrite Hbang.
  destruct (tmpl_afrom_attr_substr E (dict request) (c :: l) json_arg_parse_rules)
    as [n t]. simpl in Hfail. apply Z.leb_le in Hfail. now rewrite Hfail.
Qed.

(** X17. The exclusion mark ends a reference as white space does: [a!a]
    is the inclusion of [a] followed by its exclusion and leaves the empty
    list.  An exclusion only acts on what is accumulated when it is
    scanned: [!a a] leaves the group of [a]. *)
Theorem json_encode_xlat_mark (format : fr_json_format_t E)
    (request : request_t) (out : list fr_value_box_t)
    (a : list ascii) (vpt : tmpl_t) (rc : Z) (A : fr_pair_list_t) :
  starts_reference a ->
  (forall rest : list ascii, ends_reference rest ->
     tmpl_afrom_attr_substr E (dict request) (a ++ rest) json_arg_parse_rules
       = (Z.of_nat (List.length a), Some vpt)) ->
  tmpl_copy_pairs E request (Some vpt) = (rc, A) ->
  -1 <= rc ->
  json_encode_xlat E format request out
    [vb_string (string_of_list_ascii (a ++ bang :: a))]
    = encoded E format out []
  /\ json_encode_xlat E format request out
       [vb_string (string_of_list_ascii (bang :: a ++ space :: a))]
     = encoded E format out A.
Proof.
  intros Hstart Hresolve Hgroup Hrc.
  pose proof (starts_reference_not_blank a [] Hstart) as Hblank.
  rewrite app_nil_r in Hblank.
  unfold json_encode_xlat. rewrite !FR_SBUFF_IN_text. split.
  - rewrite (starts_reference_not_blank a _ Hstart).
    rewrite length_app. simpl List.length. rewrite Nat.add_succ_r.
    rewrite (json_encode_loop_include E request a vpt rc A Hstart Hresolve Hgroup Hrc)
      by apply ends_reference_bang.
    change (fr_sbuff_adv_past_whitespace (bang :: a)) with (bang :: a).
    destruct a as [|c l] eqn:Ha; [contradiction|]. rewrite <- Ha in *.
    replace (List.length a) with (S (List.length l)) by (rewrite Ha; reflexivity).
    rewrite Nat.add_succ_r. rewrite <- (app_nil_r a) at 1.
    rewrite (json_encode_loop_exclude E request a vpt rc A Hstart Hresolve Hgroup Hrc)
      by exact I.
    rewrite json_encode_negate_after_include, json_encode_loop_end.
    now rewrite json_encode_negate_nil.
  - change (fr_sbuff_adv_past_whitespace (bang :: a ++ space :: a))
      with (bang :: a ++ space :: a).
    simpl List.length. rewrite length_app. simpl List.length.
    rewrite Nat.add_succ_r.
    rewrite (json_encode_loop_exclude E request a vpt rc A Hstart Hresolve Hgroup Hrc)
      by apply ends_reference_space.
    change (fr_sbuff_adv_past_whitespace (space :: a))
      with (fr_sbuff_adv_past_whitespace a).
    rewrite Hblank. rewrite <- (app_nil_r a) at 3.
    rewrite (json_encode_loop_include E request a vpt rc A Hstart Hresolve Hgroup Hrc)
      by exact I.
    rewrite json_encode_loop_end. now rewrite json_encode_negate_nil.
Qed.

(** The pairs of a group with their values forgotten. *)
Lemma kept_by_exclusion_ext (vps vps' json_vps : fr_pair_list_t) :
  map da vps = map da vps' ->
  kept_by_exclusion vps json_vps = kept_by_exclusion vps' json_vps.
Proof.
  intros Hda. unfold kept_by_exclusion. apply filter_ext. intros vpm. f_equal.
  assert (H : forall l, existsb (fun vp => da_eqb (da vp) (da vpm)) l
                        = existsb (fun d => da_eqb d (da vpm)) (map da l)).
  { induction l as [|x l IH]; [reflexivity|]. simpl. now rewrite IH. }
  now rewrite !H, Hda.
Qed.

Lemma filter_comm_pairs (f g : fr_pair_t -> bool) (l : fr_pair_list_t) :
  filter f (filter g l) = filter g (filter f l).
Proof.
  induction l as [|x l IH]; [reflexivity|].
  simpl. destruct (f x) eqn:Hf, (g x) eqn:Hg; simpl; rewrite ?Hf, ?Hg, IH; reflexivity.
Qed.

Lemma filter_idem_pairs (f : fr_pair_t -> bool) (l : fr_pair_list_t) :
  filter f (filter f l) = filter f l.
Proof.
  induction l as [|x l IH]; [reflexivity|].
  simpl. destruct (f x) eqn:Hf; simpl; rewrite ?Hf, IH; reflexivity.
Qed.

(** X18. Exclusions compose: excluding a concatenated group is excluding
    its parts one after the other, two exclusions commute, an exclusion
    done twice is the exclusion done once, only the attributes of the
    group matter (not its values or operators), and an exclusion never
    lengthens the list. *)
Theorem json_encode_negate_algebra (A B json_vps : fr_pair_list_t) :
  json_encode_negate (A ++ B) json_vps
    = json_encode_negate B (json_encode_negate A json_vps)
  /\ json_encode_negate A (json_encode_negate B json_vps)
     = json_encode_negate B (json_encode_negate A json_vps)
  /\ json_encode_negate A (json_encode_negate A json_vps)
     = json_encode_negate A json_vps
  /\ json_encode_negate
       (map (fun vp => {| da := da vp; op := T_OP_EQ; data := vb_null |}) A) json_vps
     = json_encode_negate A json_vps
  /\ (List.length (json_encode_negate A json_vps) <= List.length json_vps)%nat.
Proof.
  split; [|split; [|split; [|split]]].
  - revert json_vps. induction A as [|vp A IH]; intros json_vps; [reflexivity|].
    simpl. apply IH.
  - rewrite !json_encode_negate_kept. apply filter_comm_pairs.
  - rewrite !json_encode_negate_kept. apply filter_idem_pairs.
  - rewrite !json_encode_negate_kept. apply kept_by_exclusion_ext.
    rewrite map_map. reflexivity.
  - rewrite json_encode_negate_kept. apply filter_length_le.
Qed.

End Scanning.

(** ** Instantiation and evaluation together *)

Section Together.

Context (E : collaborators).

Lemma compiled_entry_text (m : map_t) :
  jpath (compiled_entry E m) = head (fr_jpath_parse E (rhs_text m) (rhs_length m)).
Proof.
  unfold compiled_entry, rhs_text, rhs_length. now destruct (type (rhs m)).
Qed.

Lemma map_accepted_compiles (m : map_t) :
  map_accepted E m = true -> static_rhs m = true ->
  0 < slen (fr_jpath_parse E (rhs_text m) (rhs_length m)).
Proof.
  unfold map_accepted, static_rhs, rhs_text, rhs_length.
  intros Hacc Hs. apply andb_prop in Hacc. destruct Hacc as [_ Hacc].
  destruct (type (rhs m)); try discriminate.
  - now apply Z.ltb_lt.
  - apply andb_prop in Hacc. destruct Hacc as [_ Hacc]. now apply Z.ltb_lt.
Qed.

(** X19. In an accepted sequence every static or literal mapping is
    evaluated with the expression compiled from its own right-hand side,
    and that compilation had succeeded: when the walk reaches the mapping
    without abort, the entry under the cursor is the one instantiation
    filled for it. *)
Theorem static_mapping_reads_own_entry (cs : CONF_ITEM)
    (proc_inst : rlm_json_jpath_cache_t E) (src : option tmpl_t)
    (pre : map_list_t) (m : map_t) (post : map_list_t)
    (chain : cache_chain E) (log : cf_log) (root : json_object E)
    (request request1 : request_t) (cursor : cache_chain E) :
  mod_map_proc_instantiate E cs proc_inst src (pre ++ m :: post) = (0, chain, log) ->
  static_rhs m = true ->
  mod_map_proc_maps E root pre chain request RLM_MODULE_UPDATED
    = Some (RLM_MODULE_UPDATED, request1, cursor) ->
  map_expression E request1 m cursor
    = Some (head (fr_jpath_parse E (rhs_text m) (rhs_length m)))
  /\ 0 < slen (fr_jpath_parse E (rhs_text m) (rhs_length m)).
Proof.
  intros Hinst Hs Hwalk. split.
  - unfold mod_map_proc_instantiate in Hinst. destruct src as [src|]; [|discriminate].
    apply instantiate_maps_chain in Hinst. simpl in Hinst.
    assert (Hfilter : filter static_rhs (pre ++ m :: post)
                      = filter static_rhs pre ++ m :: filter static_rhs post).
    { rewrite filter_app. simpl. now rewrite Hs. }
    rewrite Hfilter, map_app in Hinst. simpl map in Hinst.
    rewrite <- app_assoc in Hinst.
    assert (Hlen : (List.length (filter static_rhs pre) <= List.length chain)%nat).
    { rewrite Hinst, length_app, length_map. lia. }
    destruct (mod_map_proc_maps_cursor E root pre chain request Hlen)
      as (rc & r & c & Hrun & Hc).
    rewrite Hrun in Hwalk. injection Hwalk as -> -> ->.
    rewrite (Hc eq_refl), Hinst.
    rewrite <- (length_map (compiled_entry E)), skipn_compiled.
    unfold map_expression. rewrite Hs. simpl. now rewrite compiled_entry_text.
  - apply map_accepted_compiles; [|exact Hs].
    assert (H0 : fst (fst (mod_map_proc_instantiate E cs proc_inst src
                             (pre ++ m :: post))) = 0) by now rewrite Hinst.
    unfold mod_map_proc_instantiate in H0. destruct src as [src|]; [|discriminate].
    destruct (instantiate_maps_result E (pre ++ m :: post) [] proc_inst)
      as [(Hall & _)|(_ & H1 & _)]; [|rewrite H1 in H0; discriminate H0].
    rewrite forallb_app in Hall. apply andb_prop in Hall. destruct Hall as [_ Hall].
    simpl in Hall. apply andb_prop in Hall. now destruct Hall.
Qed.

(** X20. [jpath_validate_xlat] predicts the instantiation: for a mapping
    whose right-hand side is the static text [text] (and whose target the
    linked json-c supports), the mapping is accepted exactly when the
    validation of [text] reports a consumed length, and is rejected with
    the caret line built from the very offset and message the validation
    reports. *)
Theorem validation_predicts_instantiation (cs : CONF_ITEM)
    (proc_inst : rlm_json_jpath_cache_t E) (src : tmpl_t) (m : map_t)
    (text : string) (out : list fr_value_box_t) :
  type (rhs m) = TMPL_TYPE_UNRESOLVED ->
  name (rhs m) = text ->
  uint64_unsupported E m = false ->
  (fst (fst (mod_map_proc_instantiate E cs proc_inst (Some src) [m])) = 0
   <-> jpath_validate_xlat E out [vb_string text]
       = Some (XLAT_ACTION_DONE,
               out ++ [vb_string (print_zu (slen (validated E (vb_string text))) ++ ":"
                                  ++ fr_jpath_asprint E (head (validated E (vb_string text))))%string])
       /\ 0 < slen (validated E (vb_string text)))
  /\ (fst (fst (mod_map_proc_instantiate E cs proc_inst (Some src) [m])) = -1
      <-> jpath_validate_xlat E out [vb_string text]
          = Some (XLAT_ACTION_DONE,
                  out ++ [vb_string (print_zu (- slen (validated E (vb_string text))) ++ ":"
                                     ++ fr_strerror (validated E (vb_string text)))%string])
          /\ slen (validated E (vb_string text)) <= 0
          /\ snd (mod_map_proc_instantiate E cs proc_inst (Some src) [m])
             = [(ci m, "Syntax error"); (ci m, text);
                (ci m, (fst (fr_canonicalize_error E
                               (slen (validated E (vb_string text)))
                               (fr_strerror (validated E (vb_string text))))
                        ++ "^ "
                        ++ snd (fr_canonicalize_error E
                                  (slen (validated E (vb_string text)))
                                  (fr_strerror (validated E (vb_string text)))))%string)]).
Proof.
  intros Hk Hname Hu. unfold uint64_unsupported in Hu.
  unfold mod_map_proc_instantiate, jpath_validate_xlat, validated.
  simpl instantiate_maps. rewrite Hu, Hk. unfold len. rewrite Hname.
  simpl vb_strvalue. unfold vb_length. simpl vb_strvalue.
  destruct (slen (fr_jpath_parse E text (Z.of_nat (String.length text))) <=? 0) eqn:Hp.
  - apply Z.leb_le in Hp.
    destruct (fr_canonicalize_error E _ _) as [spaces caret]. simpl. split.
    + split; [discriminate|]. intros [_ H]. lia.
    + split; [intros _; now repeat split|reflexivity].
  - apply Z.leb_gt in Hp. simpl. split.
    + split; [intros _; now split|reflexivity].
    + split; [discriminate|]. intros (_ & H & _). lia.
Qed.

End Together.

(** ** The further properties at sample inputs *)

Section MoreInstances.

Import Inputs.
Import Cases.

Lemma sample_Reply_Message_resolves (rest : list ascii) :
  ends_reference rest ->
  tmpl_afrom_attr_substr W (dict request) (Reply_Message_ref ++ rest)
    json_arg_parse_rules
    = (Z.of_nat (List.length Reply_Message_ref), Some (tmpl_attr Reply_Message)).
Proof.
  destruct rest as [|c rest]; [reflexivity|].
  intros [<-|[<-|[<-|[]]]]; reflexivity.
Defined.

Lemma sample_User_Name_resolves_failing_copy (rest : list ascii) :
  ends_reference rest ->
  tmpl_afrom_attr_substr W_failing_copy (dict request) (User_Name_ref ++ rest)
    json_arg_parse_rules
    = (Z.of_nat (List.length User_Name_ref), Some (tmpl_attr User_Name)).
Proof.
  destruct rest as [|c rest]; [reflexivity|].
  intros [<-|[<-|[<-|[]]]]; reflexivity.
Defined.

(** X1 at a matching document. *)
Lemma mod_map_proc_updated_or_fail_witness :
  mod_map_proc W chain_msg empty_request [vb_string doc_hello] [map_msg]
    = Some (RLM_MODULE_UPDATED, delivered_hello)
  /\ RLM_MODULE_UPDATED <> RLM_MODULE_NOOP
  /\ (RLM_MODULE_UPDATED = RLM_MODULE_UPDATED \/ RLM_MODULE_UPDATED = RLM_MODULE_FAIL).
Proof.
  split; [reflexivity|].
  exact (mod_map_proc_updated_or_fail W chain_msg empty_request
           [vb_string doc_hello] [map_msg] RLM_MODULE_UPDATED delivered_hello eq_refl).
Defined.

(** X2: a mapping added behind the failing [map_timeout]. *)
Lemma mod_map_proc_abort_final_witness :
  mod_map_proc W chain_msg_timeout empty_request [vb_string doc_bad_timeout]
    ([map_msg; map_timeout] ++ [map_xlat])
    = Some (RLM_MODULE_FAIL, delivered_hello).
Proof.
  exact (mod_map_proc_abort_final W chain_msg_timeout empty_request
           [vb_string doc_bad_timeout] [map_msg; map_timeout] [map_xlat]
           delivered_hello eq_refl).
Defined.

(** X3: a spare entry behind the chain of [map_msg]. *)
Lemma mod_map_proc_extra_entries_witness :
  mod_map_proc W (chain_msg ++ [blank]) empty_request [vb_string doc_hello] [map_msg]
    = Some (RLM_MODULE_UPDATED, delivered_hello).
Proof.
  exact (mod_map_proc_extra_entries W chain_msg [blank] empty_request
           [vb_string doc_hello] [map_msg] RLM_MODULE_UPDATED delivered_hello
           eq_refl).
Defined.

(** X4 at a text that is no document. *)
Lemma mod_map_proc_document_failure_witness :
  mod_map_proc W chain_msg empty_request [vb_string "{"] [map_msg]
    = Some (RLM_MODULE_FAIL, empty_request).
Proof.
  apply (mod_map_proc_document_failure W chain_msg empty_request
           [vb_string "{"] [map_msg]).
  right. right. reflexivity.
Defined.

(** X5 at the document with [msg]. *)
Lemma mod_map_proc_exact_length_witness :
  mod_map_proc W chain_msg empty_request [vb_string doc_hello] [map_msg] =
    match json_tokener_parse_ex W doc_hello (Z.of_nat (String.length doc_hello)) with
    | None => Some (RLM_MODULE_FAIL, empty_request)
    | Some root =>
        match mod_map_proc_maps W root [map_msg] chain_msg empty_request
                RLM_MODULE_UPDATED with
        | Some (rc, request', _) => Some (rc, request')
        | None => None
        end
    end.
Proof.
  apply (mod_map_proc_exact_length W chain_msg empty_request
           (vb_string doc_hello) [] [map_msg] doc_hello).
  - vm_compute. discriminate.
  - reflexivity.
  - vm_compute. split; reflexivity.
Defined.

(** X6 at a document with two members [msg]. *)
Lemma get_value_one_pair_per_leaf_witness :
  _json_map_proc_get_value W
    {| to_eval_jpath := Some "msg" : option (fr_jpath_node_t W);
       root := root_two_msgs |} empty_request map_msg
    = (0, map (leaf_pair W map_msg) [vb_string "hello"; vb_string "again"]).
Proof.
  destruct (get_value_one_pair_per_leaf W
              {| to_eval_jpath := Some "msg" : option (fr_jpath_node_t W);
                 root := root_two_msgs |} empty_request map_msg 1
              [vb_string "hello"; vb_string "again"] eq_refl) as [_ Hpairs].
  apply Hpairs.
  - reflexivity.
  - intros value _. vm_compute. discriminate.
Defined.

(** X7 at a leaf that is no number. *)
Lemma get_value_fails_exactly_witness :
  fst (_json_map_proc_get_value W
         {| to_eval_jpath := Some "t" : option (fr_jpath_node_t W);
            root := root_bad_timeout |} delivered_hello map_timeout) < 0
  /\ _json_map_proc_get_value W
       {| to_eval_jpath := Some "t" : option (fr_jpath_node_t W);
          root := root_bad_timeout |} delivered_hello map_timeout = (-1, []).
Proof.
  destruct (get_value_fails_exactly W
              {| to_eval_jpath := Some "t" : option (fr_jpath_node_t W);
                 root := root_bad_timeout |} delivered_hello map_timeout (-1) []
              eq_refl) as [Hiff Hout].
  assert (Hfail : fst (_json_map_proc_get_value W
                         {| to_eval_jpath := Some "t" : option (fr_jpath_node_t W);
                            root := root_bad_timeout |} delivered_hello map_timeout) < 0).
  { apply Hiff. left. reflexivity. }
  split; [exact Hfail|exact (Hout Hfail)].
Defined.

(** X10 at [map_msg; map_bad_syntax; map_timeout]. *)
Lemma instantiate_fail_fast_witness :
  fst (fst (mod_map_proc_instantiate W 1 blank (Some (tmpl_attr Filter_Id))
              ([map_msg] ++ map_bad_syntax :: [map_timeout]))) = -1
  /\ snd (mod_map_proc_instantiate W 1 blank (Some (tmpl_attr Filter_Id))
            ([map_msg] ++ map_bad_syntax :: [map_timeout]))
     = snd (mod_map_proc_instantiate W 1 blank (Some (tmpl_attr Filter_Id))
              [map_bad_syntax]).
Proof.
  exact (instantiate_fail_fast W 1 blank (tmpl_attr Filter_Id)
           [map_msg] map_bad_syntax [map_timeout] eq_refl eq_refl).
Defined.

(** X11 at the same sequence: the caret is under the fifth byte. *)
Lemma instantiate_syntax_error_witness :
  snd (mod_map_proc_instantiate W 1 blank (Some (tmpl_attr Filter_Id))
         ([map_msg] ++ map_bad_syntax :: [map_timeout]))
    = [(105, "Syntax error"); (105, "$.ms g");
       (105, "    ^ Unexpected text after field specifier")].
Proof.
  rewrite (instantiate_syntax_error W 1 blank (tmpl_attr Filter_Id)
             [map_msg] map_bad_syntax [map_timeout] eq_refl eq_refl eq_refl).
  - reflexivity.
  - intros H. discriminate H.
  - vm_compute. discriminate.
Defined.

(** X12 at a literal that is a number. *)
Lemma instantiate_literal_not_string_witness :
  fst (fst (mod_map_proc_instantiate W 1 blank (Some (tmpl_attr Filter_Id))
              ([map_msg] ++ map_number :: []))) = -1
  /\ snd (mod_map_proc_instantiate W 1 blank (Some (tmpl_attr Filter_Id))
            ([map_msg] ++ map_number :: []))
     = [(106, "Right side of map must be a string")].
Proof.
  apply (instantiate_literal_not_string W 1 blank (tmpl_attr Filter_Id)
           [map_msg] map_number [] eq_refl eq_refl eq_refl).
  intros H. discriminate H.
Defined.

(** X14 at two spaces before [User-Name]. *)
Lemma json_encode_xlat_blank_witness :
  json_encode_xlat W tt request [] [vb_string "  User-Name"]
    = json_encode_xlat W tt request [] [vb_string "User-Name"]
  /\ json_encode_xlat W tt request [] [vb_string "  "] = encoded W tt [] [].
Proof.
  exact (json_encode_xlat_blank W tt request [] [space; space] User_Name_ref eq_refl).
Defined.

(** X15: [Reply-Message] has no pair in the request (status -1), and a
    provider that reports -2. *)
Lemma json_encode_xlat_copy_status_witness :
  json_encode_xlat W tt request [] [vb_string "Reply-Message"] = encoded W tt [] []
  /\ json_encode_xlat W_failing_copy tt request [] [vb_string "User-Name"]
     = Some (XLAT_ACTION_FAIL, []).
Proof.
  split.
  - exact (json_encode_xlat_copy_status W tt request [] Reply_Message_ref
             (tmpl_attr Reply_Message) (-1) [] (conj eq_refl eq_refl)
             sample_Reply_Message_resolves eq_refl).
  - exact (json_encode_xlat_copy_status W_failing_copy tt request [] User_Name_ref
             (tmpl_attr User_Name) (-2) [] (conj eq_refl eq_refl)
             sample_User_Name_resolves_failing_copy eq_refl).
Defined.

(** X16 at [User-Name Bogus]. *)
Lemma json_encode_xlat_bad_token_witness :
  json_encode_xlat W tt request [] [vb_string "User-Name Bogus"]
    = Some (XLAT_ACTION_FAIL, []).
Proof.
  apply (json_encode_xlat_bad_token W tt request [] User_Name_ref
           (tmpl_attr User_Name) 0 [pair User_Name "bob"] Bogus_ref).
  - split; reflexivity.
  - exact sample_User_Name_resolves.
  - reflexivity.
  - discriminate.
  - split; reflexivity.
  - vm_compute. discriminate.
Defined.

(** X17 at [User-Name!User-Name] and [!User-Name User-Name]. *)
Lemma json_encode_xlat_mark_witness :
  json_encode_xlat W tt request [] [vb_string "User-Name!User-Name"]
    = encoded W tt [] []
  /\ json_encode_xlat W tt request [] [vb_string "!User-Name User-Name"]
     = encoded W tt [] [pair User_Name "bob"].
Proof.
  apply (json_encode_xlat_mark W tt request [] User_Name_ref
           (tmpl_attr User_Name) 0 [pair User_Name "bob"]).
  - split; reflexivity.
  - exact sample_User_Name_resolves.
  - reflexivity.
  - discriminate.
Defined.

(** X19 at [map_msg; map_timeout]: the second mapping reads [$.t]. *)
Lemma static_mapping_reads_own_entry_witness :
  map_expression W delivered_hello map_timeout [compiled "t"]
    = Some (head (fr_jpath_parse W (rhs_text map_timeout) (rhs_length map_timeout)))
  /\ 0 < slen (fr_jpath_parse W (rhs_text map_timeout) (rhs_length map_timeout)).
Proof.
  exact (static_mapping_reads_own_entry W 1 blank src [map_msg] map_timeout []
           chain_msg_timeout [] root_hello empty_request delivered_hello
           [compiled "t"] eq_refl eq_refl eq_refl).
Defined.

(** X20 at the text of [map_bad_syntax]. *)
Lemma validation_predicts_instantiation_witness :
  fst (fst (mod_map_proc_instantiate W 1 blank (Some (tmpl_attr Filter_Id))
              [map_bad_syntax])) = -1
  <-> jpath_validate_xlat W [] [vb_string "$.ms g"]
      = Some (XLAT_ACTION_DONE,
              [] ++ [vb_string (print_zu (- slen (validated W (vb_string "$.ms g"))) ++ ":"
                                ++ fr_strerror (validated W (vb_string "$.ms g")))%string])
      /\ slen (validated W (vb_string "$.ms g")) <= 0
      /\ snd (mod_map_proc_instantiate W 1 blank (Some (tmpl_attr Filter_Id))
                [map_bad_syntax])
         = [(ci map_bad_syntax, "Syntax error"); (ci map_bad_syntax, "$.ms g");
            (ci map_bad_syntax,
             (fst (fr_canonicalize_error W
                     (slen (validated W (vb_string "$.ms g")))
                     (fr_strerror (validated W (vb_string "$.ms g"))))
              ++ "^ "
              ++ snd (fr_canonicalize_error W
                        (slen (validated W (vb_string "$.ms g")))
                        (fr_strerror (validated W (vb_string "$.ms g")))))%string)].
Proof.
  exact (proj2 (validation_predicts_instantiation W 1 blank (tmpl_attr Filter_Id)
                  map_bad_syntax "$.ms g" [] eq_refl eq_refl eq_refl)).
Defined.

End MoreInstances.
